(** * dtreview: literature search aggregation (main.py)

    A shallow embedding of the script's four provider adapters, of its
    duplicate filter and of its CSV export, with the properties the
    specification states about them.

    Text is [string]; every [ascii] stands for one character.  Case mapping
    and white space follow CPython on the ASCII range; characters above it
    are left alone by [lower] and are never white space here.  Python [int]
    is [Z].  The script's module-level [results] list, what it prints and
    the requests it sends live in an explicit state threaded through the
    adapters. *)

From Stdlib Require Import ZArith Ascii String List Lia DecimalString.
From stdpp Require Import base decidable countable gmap strings list.

Local Open Scope string_scope.
Local Open Scope Z_scope.

(** ** Python string operations used by the script *)

Module PyStr.

Definition is_upper (c : ascii) : bool :=
  let n := nat_of_ascii c in (Nat.leb 65 n && Nat.leb n 90)%bool.

(** One character of [str.lower()]: A-Z move to a-z. *)
Definition lower_char (c : ascii) : ascii :=
  if is_upper c then ascii_of_nat (nat_of_ascii c + 32) else c.

(** [s.lower()] *)
Fixpoint lower (s : string) : string :=
  match s with
  | EmptyString => EmptyString
  | String c s' => String (lower_char c) (lower s')
  end.

(** [c.isspace()] on the ASCII range: TAB, LF, VT, FF, CR, FS, GS, RS,
    US and the space. *)
Definition is_space (c : ascii) : bool :=
  let n := nat_of_ascii c in
  ((Nat.leb 9 n && Nat.leb n 13) || (Nat.leb 28 n && Nat.leb n 32))%bool.

(** [s.lstrip()] *)
Fixpoint lstrip (s : string) : string :=
  match s with
  | EmptyString => EmptyString
  | String c s' => if is_space c then lstrip s' else s
  end.

(** [s.rstrip()] *)
Fixpoint rstrip (s : string) : string :=
  match s with
  | EmptyString => EmptyString
  | String c s' =>
      match rstrip s' with
      | EmptyString => if is_space c then EmptyString else String c EmptyString
      | t => String c t
      end
  end.

(** [s.strip()] *)
Definition strip (s : string) : string := rstrip (lstrip s).

(** [s.split(sep)[0]] for a one-character separator: the text before the
    first separator, the whole text when there is none.  The list
    [s.split(sep)] is never empty, so the index cannot fail. *)
Fixpoint split_head (sep : ascii) (s : string) : string :=
  match s with
  | EmptyString => EmptyString
  | String c s' =>
      if Ascii.eqb c sep then EmptyString else String c (split_head sep s')
  end.

(** [sep.join(parts)] *)
Fixpoint join (sep : string) (parts : list string) : string :=
  match parts with
  | [] => EmptyString
  | [p] => p
  | p :: ps => p ++ sep ++ join sep ps
  end.

(** [str(n)] for an [int]. *)
Definition of_int (n : Z) : string := NilZero.string_of_int (Z.to_int n).

(** [c in s] for a character. *)
Fixpoint contains (c : ascii) (s : string) : bool :=
  match s with
  | EmptyString => false
  | String d s' => (Ascii.eqb c d || contains c s')%bool
  end.

End PyStr.

(** ** Records *)

(** The dictionaries appended to [results].  [Source], [Title], [Authors],
    [Year] and [DOI] are results of string operations or of lookups with a
    string default in every adapter.  [Abstract] and [URL] are, in the
    arXiv adapter, the [.text] of an XML element, which is [None] for an
    element without text: those two hold a Python value that may be
    [None]. *)
Record Rec := mkRecord {
  Source : string;
  Title : string;
  Authors : string;
  Year : string;
  Abstract : option string;
  DOI : string;
  URL : option string
}.

(** ** The duplicate filter (main.py, lines 166-172) *)

Section Dedup.
Context {A K : Type} `{!EqDecision K, !Countable K}.
Variable key : A → K.

(** The body of [for r in results], with the set [seen] and the list
    [unique_results] as they stand when the loop reaches [rs]. *)
Fixpoint dedup_loop (seen : gset K) (unique_results : list A) (rs : list A)
  : gset K * list A :=
  match rs with
  | [] => (seen, unique_results)
  | r :: rs' =>
      let k := key r in
      if decide (k ∈ seen)
      then dedup_loop seen unique_results rs'
      else dedup_loop ({[k]} ∪ seen) (unique_results ++ [r]) rs'
  end.

Definition dedup_by (results : list A) : list A :=
  snd (dedup_loop ∅ [] results).
End Dedup.

(** [key = (r["Title"].lower(), r["Year"])] *)
Definition dedup_key (r : Rec) : string * string :=
  (PyStr.lower (Title r), Year r).

Definition deduplicate (results : list Rec) : list Rec :=
  dedup_by dedup_key results.

(** ** Configuration constants *)

Definition dq : string := String (ascii_of_nat 34) EmptyString.
Definition quoted (s : string) : string := dq ++ s ++ dq.

Definition QUERY : string :=
  "(" ++ quoted "digital twin" ++ " OR " ++ quoted "virtual patient" ++ " OR "
  ++ quoted "in silico patient" ++ " OR " ++ quoted "surrogate model" ++ " OR "
  ++ quoted "physics-informed neural network"
  ++ ") AND (multiscale OR multiphysics OR hybrid modeling OR "
  ++ quoted "precision medicine" ++ " OR workflow OR " ++ quoted "model validation"
  ++ " OR " ++ quoted "uncertainty quantification" ++ ")".

Definition MAX_RESULTS : Z := 100000.

(** ** Provider payloads

    A payload follows the provider's schema: a key of a JSON object or of
    a MEDLINE record is absent ([None]) or holds a value of its schema
    type; a child of an XML element is absent or present, and a present
    element has a text or none. *)

(** A MEDLINE record as [Medline.parse] yields it. *)
Record MedlineRec := {
  TI : option string;
  AU : option (list string);
  DP : option string;
  AB : option string;
  LID : option string;
  PMID : option string
}.

(** The result of [element.find(tag)]: [None] when there is no such child,
    [Some text] with the child's [.text] otherwise. *)
Definition found := option (option string).

(** An [atom:entry] of the arXiv feed; [atom_author] has, per
    [atom:author] child in document order, its [atom:name] lookup. *)
Record ArxivEntry := {
  atom_title : found;
  atom_author : list found;
  atom_published : found;
  atom_summary : found;
  atom_id : found
}.

Record CrossrefAuthor := {
  given : option string;
  family : option string
}.

(** [date_parts] holds the value under the key [date-parts]: arrays of
    numbers, where CrossRef writes [null] for an unknown part. *)
Record CrossrefIssued := {
  date_parts : option (list (list (option Z)))
}.

Record CrossrefItem := {
  cr_title : option (list string);
  cr_author : option (list CrossrefAuthor);
  cr_issued : option CrossrefIssued;
  cr_DOI : option string;
  cr_URL : option string
}.

Record CrossrefData := {
  message : option (option (list CrossrefItem))
}.

Record EpmcAuthor := {
  fullName : option string
}.

Record EpmcHit := {
  hit_title : option string;
  hit_authorList : option (option (list EpmcAuthor));
  hit_pubYear : option string;
  hit_abstractText : option string;
  hit_doi : option string;
  hit_source : option string;
  hit_id : option string
}.

Record EpmcData := {
  resultList : option (option (list EpmcHit))
}.

(** ** Exceptions, requests, responses *)

Inductive exn :=
| HTTPError (status : Z)
| ParseError
| JSONDecodeError
| AttributeError
| TypeError
| IndexError.

(** What the script sends.  The arXiv request is a URL built from the
    offset and the page size; the others pass parameters. *)
Inductive Request :=
| ESearch (db term : string) (retmax : Z)
| EFetch (db id rettype retmode : string)
| ArxivGet (url : string)
| CrossrefGet (query : string) (rows : Z)
| EuropePmcGet (query format : string) (pageSize page : Z).

(** An Entrez call returns its parsed result or raises on an HTTP error. *)
Inductive entrez_reply (A : Type) :=
| EntrezOk (a : A)
| EntrezFail (status : Z).
Arguments EntrezOk {A} a.
Arguments EntrezFail {A} status.

(** A [requests] response: the status and the decoded body, [None] when
    the body does not parse ([ET.fromstring], [r.json()] raise). *)
Record Response (B : Type) := mkResponse {
  status_code : Z;
  body : option B
}.
Arguments mkResponse {B} status_code body.
Arguments status_code {B} r.
Arguments body {B} r.

(** The providers: what each answers to a request. *)
Record World := {
  esearch : string → Z → entrez_reply (list string);
  efetch : string → entrez_reply (list MedlineRec);
  arxiv_get : Z → Z → Response (list ArxivEntry);
  crossref_get : string → Z → Response CrossrefData;
  europe_pmc_get : string → Z → Z → Response EpmcData
}.

(** ** Program state and the monad of the adapters *)

(** [results] is the module-level list the adapters append to; [stdout]
    the lines printed; [sent] the requests issued, oldest first. *)
Record State := mkState {
  results : list Rec;
  stdout : list string;
  sent : list Request
}.

Definition initial : State := mkState [] [] [].

(** How a statement ends: normally, by an uncaught exception, or (in the
    model only) with the loop fuel used up. *)
Inductive outcome (A : Type) :=
| Ok (a : A)
| Raise (e : exn)
| OutOfFuel.
Arguments Ok {A} a.
Arguments Raise {A} e.
Arguments OutOfFuel {A}.

(** A statement: the state it leaves is kept when it raises, as the
    appends to [results] made before an exception are. *)
Definition M (A : Type) : Type := State → outcome A * State.

Definition raise {A} (e : exn) : M A := λ s, (Raise e, s).

Definition out_of_fuel {A} : M A := λ s, (OutOfFuel, s).

#[global] Instance M_ret : MRet M := λ A a s, (Ok a, s).

#[global] Instance M_bind : MBind M := λ A B k m s,
  match m s with
  | (Ok a, s') => k a s'
  | (Raise e, s') => (Raise e, s')
  | (OutOfFuel, s') => (OutOfFuel, s')
  end.

(** Sequencing uses stdpp's notations: [x ← m; k] and [m;; k]. *)

(** [results.append(r)] *)
Definition append (r : Rec) : M unit :=
  λ s, (Ok tt, mkState (results s ++ [r]) (stdout s) (sent s)).

(** [print(line)] *)
Definition print (line : string) : M unit :=
  λ s, (Ok tt, mkState (results s) (stdout s ++ [line]) (sent s)).

(** Issue a request. *)
Definition send (q : Request) : M unit :=
  λ s, (Ok tt, mkState (results s) (stdout s) (sent s ++ [q])).

(** The value of an expression that may raise. *)
Definition lift {A} (v : exn + A) : M A :=
  match v with
  | inl e => raise e
  | inr a => mret a
  end.

(** [results.append(expr)] for an expression that may raise: the
    expression is evaluated first. *)
Definition append_expr (v : exn + Rec) : M unit :=
  rcd ← lift v; append rcd.

(** [for x in xs: body(x)] *)
Fixpoint for_each {A} (xs : list A) (body : A → M unit) : M unit :=
  match xs with
  | [] => mret tt
  | x :: xs' => body x;; for_each xs' body
  end.

(** [d.get(key, default)] on a payload field. *)
Definition get {A} (field : option A) (default : A) : A :=
  match field with
  | Some v => v
  | None => default
  end.

(** Expressions that may raise, evaluated left to right. *)
Definition ebind {A B} (v : exn + A) (k : A → exn + B) : exn + B :=
  match v with
  | inl e => inl e
  | inr a => k a
  end.

(** ** PubMed (main.py, lines 33-50) *)

(** A call of [Entrez.esearch] or [Entrez.efetch] with the parsing of its
    handle: the library raises on an HTTP error status. *)
Definition entrez {A} (q : Request) (reply : entrez_reply A) : M A :=
  send q;;
  match reply with
  | EntrezOk a => mret a
  | EntrezFail status => raise (HTTPError status)
  end.

Definition pubmed_record (rec : MedlineRec) : Rec :=
  {| Source := "PubMed";
     Title := PyStr.strip (get (TI rec) "");
     Authors := PyStr.join "; " (get (AU rec) []);
     Year := PyStr.split_head " " (get (DP rec) "");
     Abstract := Some (get (AB rec) "");
     DOI := get (LID rec) "";
     URL := Some ("https://pubmed.ncbi.nlm.nih.gov/" ++ get (PMID rec) "" ++ "/") |}.

Definition search_pubmed (w : World) : M unit :=
  ids ← entrez (ESearch "pubmed" QUERY MAX_RESULTS) (esearch w QUERY MAX_RESULTS);
  records ← entrez (EFetch "pubmed" (PyStr.join "," ids) "medline" "text")
                   (efetch w (PyStr.join "," ids));
  for_each records (λ rec, append (pubmed_record rec)).

(** ** arXiv (main.py, lines 53-77) *)

(** [entry.find(tag).text]: [AttributeError] when [find] returns [None]. *)
Definition find_text (f : found) : exn + option string :=
  match f with
  | None => inl AttributeError
  | Some text => inr text
  end.

(** [v.method()] for a string method on a value that may be [None]. *)
Definition as_str (v : option string) : exn + string :=
  match v with
  | None => inl AttributeError
  | Some s => inr s
  end.

(** The list comprehension [[a.find('atom:name', ns).text for a in ...]]. *)
Fixpoint author_names (authors : list found) : exn + list (option string) :=
  match authors with
  | [] => inr []
  | a :: rest =>
      ebind (find_text a) (λ n,
      ebind (author_names rest) (λ ns, inr (n :: ns)))
  end.

(** ["; ".join(items)]: [TypeError] on an item that is [None]. *)
Fixpoint join_values (items : list (option string)) : exn + list string :=
  match items with
  | [] => inr []
  | None :: _ => inl TypeError
  | Some s :: rest => ebind (join_values rest) (λ ss, inr (s :: ss))
  end.

Definition arxiv_record (entry : ArxivEntry) : exn + Rec :=
  ebind (find_text (atom_title entry)) (λ t,
  ebind (as_str t) (λ title,
  ebind (author_names (atom_author entry)) (λ names,
  ebind (join_values names) (λ parts,
  ebind (find_text (atom_published entry)) (λ p,
  ebind (as_str p) (λ published,
  ebind (find_text (atom_summary entry)) (λ summary,
  ebind (find_text (atom_id entry)) (λ id,
  inr {| Source := "arXiv";
         Title := PyStr.strip title;
         Authors := PyStr.join "; " parts;
         Year := PyStr.split_head "-" published;
         Abstract := summary;
         DOI := "";
         URL := id |})))))))).

Definition arxiv_base_url : string := "http://export.arxiv.org/api/query".

Definition arxiv_url (start batch_size : Z) : string :=
  arxiv_base_url ++ "?search_query=all:" ++ QUERY ++ "&start=" ++ PyStr.of_int start
  ++ "&max_results=" ++ PyStr.of_int batch_size.

Definition arxiv_batch_size : Z := 200.

(** The [while retrieved < MAX_RESULTS] loop, for a budget [max_results];
    [fuel] bounds the number of pages fetched. *)
Fixpoint arxiv_loop (w : World) (max_results : Z) (fuel : nat)
    (start retrieved : Z) : M unit :=
  if retrieved <? max_results then
    match fuel with
    | O => out_of_fuel
    | S fuel' =>
        send (ArxivGet (arxiv_url start arxiv_batch_size));;
        let r := arxiv_get w start arxiv_batch_size in
        match body r with
        | None => raise ParseError
        | Some entries =>
            match entries with
            | [] => mret tt
            | _ =>
                for_each entries (λ entry, append_expr (arxiv_record entry));;
                arxiv_loop w max_results fuel'
                  (start + arxiv_batch_size) (retrieved + Z.of_nat (length entries))
            end
        end
    end
  else mret tt.

(** Every page that lets the loop go on adds at least one to [retrieved],
    so [MAX_RESULTS] pages of fuel are never used up ([arxiv_loop_fuel]). *)
Definition search_arxiv (w : World) : M unit :=
  arxiv_loop w MAX_RESULTS (Z.to_nat MAX_RESULTS) 0 0.

(** ** CrossRef (main.py, lines 84-115) *)

(** [xs[0]] *)
Definition index0 {A} (xs : list A) : exn + A :=
  match xs with
  | [] => inl IndexError
  | x :: _ => inr x
  end.

(** [str(v)] for a value that is an [int] or [None]. *)
Definition str_value (v : option Z) : string :=
  match v with
  | None => "None"
  | Some n => PyStr.of_int n
  end.

(** The body of [for a in item.get("author", [])]: the name parts that
    are present, joined by a space. *)
Definition crossref_author_name (a : CrossrefAuthor) : string :=
  let name_parts : list string := [] in
  let name_parts := match given a with
                    | Some g => (name_parts ++ [g])%list
                    | None => name_parts
                    end in
  let name_parts := match family a with
                    | Some f => (name_parts ++ [f])%list
                    | None => name_parts
                    end in
  PyStr.join " " name_parts.

(** [item.get("issued", {}).get("date-parts", [[None]])] *)
Definition crossref_date_parts (item : CrossrefItem) : list (list (option Z)) :=
  match cr_issued item with
  | None => [[None]]
  | Some issued => get (date_parts issued) [[None]]
  end.

Definition crossref_record (item : CrossrefItem) : exn + Rec :=
  ebind (index0 (get (cr_title item) [""])) (λ title,
  let authors := map crossref_author_name (get (cr_author item) []) in
  ebind (index0 (crossref_date_parts item)) (λ first,
  ebind (index0 first) (λ year,
  inr {| Source := "CrossRef";
         Title := PyStr.strip title;
         Authors := PyStr.join "; " authors;
         Year := str_value year;
         Abstract := Some "";
         DOI := get (cr_DOI item) "";
         URL := Some (get (cr_URL item) "") |}))).

Definition crossref_rows : Z := 50.

(** [data.get("message", {}).get("items", [])] *)
Definition crossref_items (data : CrossrefData) : list CrossrefItem :=
  match message data with
  | None => []
  | Some items => get items []
  end.

Definition search_crossref (w : World) : M unit :=
  send (CrossrefGet QUERY crossref_rows);;
  let r := crossref_get w QUERY crossref_rows in
  if decide (status_code r ≠ 200) then
    print ("[CrossRef] Failed request (status " ++ PyStr.of_int (status_code r) ++ ")")
  else
    match body r with
    | None => raise JSONDecodeError
    | Some data =>
        for_each (crossref_items data) (λ item, append_expr (crossref_record item))
    end.

(** ** Europe PMC (main.py, lines 118-150) *)

(** [hit.get("authorList", {}).get("author", [])] *)
Definition epmc_authors (hit : EpmcHit) : list EpmcAuthor :=
  match hit_authorList hit with
  | None => []
  | Some authors => get authors []
  end.

(** [pubYear] is a JSON string in the provider's answers, and [str] of a
    string is that string. *)
Definition epmc_record (hit : EpmcHit) : Rec :=
  {| Source := "Europe PMC";
     Title := PyStr.strip (get (hit_title hit) "");
     Authors := PyStr.join "; " (map (λ a, get (fullName a) "") (epmc_authors hit));
     Year := get (hit_pubYear hit) "";
     Abstract := Some (get (hit_abstractText hit) "");
     DOI := get (hit_doi hit) "";
     URL := Some ("https://europepmc.org/article/" ++ get (hit_source hit) ""
                  ++ "/" ++ get (hit_id hit) "") |}.

(** [data.get("resultList", {}).get("result", [])] *)
Definition epmc_hit_list (data : EpmcData) : list EpmcHit :=
  match resultList data with
  | None => []
  | Some result => get result []
  end.

Definition epmc_page_size : Z := 100.

(** The [while retrieved < MAX_RESULTS] loop, for a budget [max_results];
    [fuel] bounds the number of pages fetched. *)
Fixpoint europe_pmc_loop (w : World) (max_results : Z) (fuel : nat)
    (retrieved page : Z) : M unit :=
  if retrieved <? max_results then
    match fuel with
    | O => out_of_fuel
    | S fuel' =>
        send (EuropePmcGet QUERY "json" epmc_page_size page);;
        let r := europe_pmc_get w QUERY epmc_page_size page in
        if decide (status_code r ≠ 200) then
          print ("[Europe PMC] Failed request (status "
                 ++ PyStr.of_int (status_code r) ++ ")")
        else
          match body r with
          | None => raise JSONDecodeError
          | Some data =>
              match epmc_hit_list data with
              | [] => mret tt
              | hit_list =>
                  for_each hit_list (λ hit, append (epmc_record hit));;
                  europe_pmc_loop w max_results fuel'
                    (retrieved + Z.of_nat (length hit_list)) (page + 1)
              end
          end
    end
  else mret tt.

Definition search_europe_pmc (w : World) : M unit :=
  europe_pmc_loop w MAX_RESULTS (Z.to_nat MAX_RESULTS) 0 1.

(** ** Running the searches (main.py, lines 153-156) *)

Definition run_searches (w : World) : M unit :=
  search_pubmed w;;
  search_arxiv w;;
  search_crossref w;;
  search_europe_pmc w.

(** ** CSV export (main.py, lines 182-187)

    [csv.DictWriter] with the default dialect: comma, double quote,
    minimal quoting, doubled quotes, rows terminated by CR LF; the file is
    opened with [newline=""], so what the writer produces is what the file
    holds. *)

Module Csv.

Definition CR : ascii := ascii_of_nat 13.
Definition LF : ascii := ascii_of_nat 10.
Definition quotechar : ascii := ascii_of_nat 34.
Definition delimiter : ascii := ascii_of_nat 44.
Definition lineterminator : string := String CR (String LF EmptyString).

(** A field is quoted when it has the delimiter, the quote character or
    a character of the line terminator. *)
Definition special (c : ascii) : bool :=
  (Ascii.eqb c delimiter || Ascii.eqb c quotechar
   || PyStr.contains c lineterminator)%bool.

Fixpoint needs_quotes (s : string) : bool :=
  match s with
  | EmptyString => false
  | String c s' => (special c || needs_quotes s')%bool
  end.

(** The field's characters, a quote character written twice. *)
Fixpoint escape (s : string) : string :=
  match s with
  | EmptyString => EmptyString
  | String c s' =>
      if Ascii.eqb c quotechar
      then String quotechar (String quotechar (escape s'))
      else String c (escape s')
  end.

Definition field (s : string) : string :=
  if needs_quotes s
  then String quotechar (escape s ++ String quotechar EmptyString)
  else s.

(** [None] is written as the empty field. *)
Definition value (v : option string) : string :=
  match v with
  | None => ""
  | Some s => s
  end.

(** [writer.writerow(values)]: the text of one row. *)
Definition row (values : list string) : string :=
  PyStr.join (String delimiter EmptyString) (map field values) ++ lineterminator.

End Csv.

Definition fieldnames : list string :=
  ["Source"; "Title"; "Authors"; "Year"; "Abstract"; "DOI"; "URL"].

(** [rowdict.get(key)] for each key of [fieldnames]. *)
Definition row_values (r : Rec) : list string :=
  [Source r; Title r; Authors r; Year r; Csv.value (Abstract r); DOI r;
   Csv.value (URL r)].

(** The rows written: [writeheader()], then [writerow(row)] for each
    record of [unique_results]. *)
Definition csv_rows (unique_results : list Rec) : list string :=
  Csv.row fieldnames :: map (λ r, Csv.row (row_values r)) unique_results.

(** The text of [combined_results.csv]. *)
Definition csv_file (unique_results : list Rec) : string :=
  fold_right String.append "" (csv_rows unique_results).

(** The lines of a text: one per LF. *)
Fixpoint count_char (c : ascii) (s : string) : nat :=
  match s with
  | EmptyString => O
  | String d s' => ((if Ascii.eqb c d then 1 else 0) + count_char c s')%nat
  end.

Definition line_count (s : string) : nat := count_char Csv.LF s.

(** ** Vocabulary of the statements *)

(** What the filter's loop appends when it starts from the set [seen]. *)
Definition dedup_from {A K : Type} `{Countable K} (key : A → K)
    (seen : gset K) (rs : list A) : list A :=
  snd (dedup_loop key seen [] rs).




(** The state after more records, more printed lines, more requests. *)
Definition add_results (s : State) (recs : list Rec) : State :=
  mkState (results s ++ recs) (stdout s) (sent s).

Definition add_stdout (s : State) (lines : list string) : State :=
  mkState (results s) (stdout s ++ lines) (sent s).

Definition add_sent (s : State) (qs : list Request) : State :=
  mkState (results s) (stdout s) (sent s ++ qs).

(** The records a [for] loop over [xs] appends before the first item
    whose record expression raises, and how the loop ends. *)
Fixpoint collect {A} (f : A → exn + Rec) (xs : list A) : list Rec * outcome unit :=
  match xs with
  | [] => ([], Ok tt)
  | x :: xs' =>
      match f x with
      | inl e => ([], Raise e)
      | inr r => let '(rs, o) := collect f xs' in (r :: rs, o)
      end
  end.

(** The requests of [n] consecutive arXiv pages from offset [start]. *)
Fixpoint arxiv_requests (start : Z) (n : nat) : list Request :=
  match n with
  | O => []
  | S n' =>
      ArxivGet (arxiv_url start arxiv_batch_size)
      :: arxiv_requests (start + arxiv_batch_size) n'
  end.

(** The requests of [n] consecutive Europe PMC pages from page [page]. *)
Fixpoint europe_pmc_requests (page : Z) (n : nat) : list Request :=
  match n with
  | O => []
  | S n' =>
      EuropePmcGet QUERY "json" epmc_page_size page
      :: europe_pmc_requests (page + 1) n'
  end.

(** A provider that never sends more than [size] items on a page. *)
Definition arxiv_pages_within (w : World) (size : Z) : Prop :=
  ∀ start entries,
    body (arxiv_get w start arxiv_batch_size) = Some entries →
    Z.of_nat (length entries) ≤ size.

Definition europe_pmc_pages_within (w : World) (size : Z) : Prop :=
  ∀ page data,
    body (europe_pmc_get w QUERY epmc_page_size page) = Some data →
    Z.of_nat (length (epmc_hit_list data)) ≤ size.

(** The diagnostics of the two adapters that check the status. *)
Definition crossref_diagnostic (status : Z) : string :=
  "[CrossRef] Failed request (status " ++ PyStr.of_int status ++ ")".

Definition europe_pmc_diagnostic (status : Z) : string :=
  "[Europe PMC] Failed request (status " ++ PyStr.of_int status ++ ")".

(** The records of the Europe PMC pages [page], ..., [page + n - 1]: a
    page answered with status 200 and a JSON body gives one record per
    hit. *)
Fixpoint europe_pmc_collected (w : World) (page : Z) (n : nat) : list Rec :=
  match n with
  | O => []
  | S n' =>
      let r := europe_pmc_get w QUERY epmc_page_size page in
      (if decide (status_code r ≠ 200) then []
       else match body r with
            | None => []
            | Some data => epmc_record <$> epmc_hit_list data
            end)
      ++ europe_pmc_collected w (page + 1) n'
  end.

(** ** Sample providers *)

Definition sample_entry : ArxivEntry :=
  {| atom_title := Some (Some " Digital Twins in Medicine ");
     atom_author := [Some (Some "A. Author"); Some (Some "B. Writer")];
     atom_published := Some (Some "2022-03-01T10:00:00Z");
     atom_summary := Some (Some "We survey digital twins.");
     atom_id := Some (Some "http://arxiv.org/abs/2203.00001v1") |}.

Definition sample_record : Rec :=
  {| Source := "arXiv";
     Title := "Digital Twins in Medicine";
     Authors := "A. Author; B. Writer";
     Year := "2022";
     Abstract := Some "We survey digital twins.";
     DOI := "";
     URL := Some "http://arxiv.org/abs/2203.00001v1" |}.

Definition sample_hit : EpmcHit :=
  {| hit_title := Some "Virtual patients";
     hit_authorList := Some (Some [{| fullName := Some "Writer B" |}]);
     hit_pubYear := Some "2021";
     hit_abstractText := None;
     hit_doi := Some "10.1000/vp";
     hit_source := Some "MED";
     hit_id := Some "12345" |}.

(** Providers that find nothing, with the arXiv and the Europe PMC
    pages given apart. *)
Definition provider (arxiv : Z → Response (list ArxivEntry))
    (europe_pmc : Z → Response EpmcData) : World :=
  {| esearch := λ _ _, EntrezOk [];
     efetch := λ _, EntrezOk [];
     arxiv_get := λ start _, arxiv start;
     crossref_get := λ _ _, mkResponse 200 (Some {| message := None |});
     europe_pmc_get := λ _ _ page, europe_pmc page |}.

Definition no_entries : Z → Response (list ArxivEntry) :=
  λ _, mkResponse 200 (Some []).

Definition no_hits : Z → Response EpmcData :=
  λ _, mkResponse 200 (Some {| resultList := None |}).

Definition hits (n : nat) : Response EpmcData :=
  mkResponse 200 (Some {| resultList := Some (Some (replicate n sample_hit)) |}).


(** arXiv answers the first request with 199 entries and every other
    with 200. *)
Definition arxiv_short_first_page : World :=
  provider (λ start, mkResponse 200
              (Some (replicate (if start =? 0 then 199 else 200) sample_entry)))
           no_hits.

(** Europe PMC answers the first page with 99 hits and every other with
    100. *)
Definition europe_pmc_short_first_page : World :=
  provider no_entries (λ page, hits (if page =? 1 then 99 else 100)).



(** An arXiv entry whose [summary] element is there but empty. *)
Definition entry_with_empty_summary : ArxivEntry :=
  {| atom_title := Some (Some "Digital Twins in Medicine");
     atom_author := [Some (Some "A. Author")];
     atom_published := Some (Some "2022-03-01T10:00:00Z");
     atom_summary := Some None;
     atom_id := Some (Some "http://arxiv.org/abs/2203.00001v1") |}.

(** arXiv answers the first request with that entry, then with none. *)
Definition arxiv_empty_summary : World :=
  provider (λ start, mkResponse 200
              (Some (if start =? 0 then [entry_with_empty_summary] else [])))
           no_hits.

(** A CrossRef item without the [issued] key. *)
Definition item_without_issued : CrossrefItem :=
  {| cr_title := Some ["Surrogate models"];
     cr_author := Some [{| given := Some "Ada"; family := Some "Writer" |}];
     cr_issued := None;
     cr_DOI := Some "10.1000/sm";
     cr_URL := Some "https://doi.org/10.1000/sm" |}.

(** The line feeds inside the fields of a record. *)
Definition embedded_line_feeds (r : Rec) : nat :=
  sum_list (count_char Csv.LF <$> row_values r).

(** A record whose abstract runs over two lines, as arXiv summaries do. *)
Definition two_line_abstract : Rec :=
  {| Source := "arXiv";
     Title := "Digital Twins in Medicine";
     Authors := "A. Author; B. Writer";
     Year := "2022";
     Abstract := Some ("We survey" +:+ String Csv.LF "digital twins.");
     DOI := "";
     URL := Some "http://arxiv.org/abs/2203.00001v1" |}.

(** The scenario of the specification: three PubMed records, two arXiv
    entries and one CrossRef item whose title and year are those of the
    first PubMed record, in other letter case. *)
Definition medline (pmid title date : string) : MedlineRec :=
  {| TI := Some title; AU := Some ["Writer A"; "Author B"]; DP := Some date;
     AB := Some "Abstract."; LID := None; PMID := Some pmid |}.

Definition entry (title published : string) : ArxivEntry :=
  {| atom_title := Some (Some title);
     atom_author := [Some (Some "C. Writer")];
     atom_published := Some (Some published);
     atom_summary := Some (Some "Summary.");
     atom_id := Some (Some "http://arxiv.org/abs/0000.00000") |}.

Definition scenario : World :=
  {| esearch := λ _ _, EntrezOk ["1"; "2"; "3"];
     efetch := λ _, EntrezOk [medline "1" "Digital Twins in Medicine" "2022 Jan 5";
                              medline "2" "Virtual patients" "2021";
                              medline "3" "Surrogate models" "2020 Mar"];
     arxiv_get := λ start _,
       mkResponse 200
         (Some (if start =? 0
                then [entry "Physics-informed networks" "2023-02-01T00:00:00Z";
                      entry "Hybrid modeling" "2019-07-09T00:00:00Z"]
                else []));
     crossref_get := λ _ _,
       mkResponse 200
         (Some {| message := Some (Some
                   [{| cr_title := Some ["DIGITAL TWINS IN MEDICINE"];
                       cr_author := Some [{| given := Some "A"; family := Some "Writer" |}];
                       cr_issued := Some {| date_parts := Some [[Some 2022; Some 1]] |};
                       cr_DOI := Some "10.1000/dt";
                       cr_URL := None |}]) |});
     europe_pmc_get := λ _ _ page, no_hits page |}.

(** CrossRef answers with status 503; Europe PMC answers the first page
    with two hits and the second with status 500. *)
Definition crossref_and_europe_pmc_down : World :=
  {| esearch := λ _ _, EntrezOk [];
     efetch := λ _, EntrezOk [];
     arxiv_get := λ start _, no_entries start;
     crossref_get := λ _ _, mkResponse 503 None;
     europe_pmc_get := λ _ _ page,
       if page =? 1 then hits 2 else mkResponse 500 None |}.

(** ** The ignore file (main.py, lines 16-25)

    The file is a text or does not exist.  The script reads it in text
    mode, which hands CR LF and a lone CR over as LF, and appends in text
    mode on a system whose line separator is LF. *)

(** What [read_text()] returns for the stored text. *)
Fixpoint universal_newlines (s : string) : string :=
  match s with
  | EmptyString => EmptyString
  | String c s' =>
      if Ascii.eqb c Csv.CR then
        match s' with
        | EmptyString => String Csv.LF EmptyString
        | String d s'' =>
            if Ascii.eqb d Csv.LF then String Csv.LF (universal_newlines s'')
            else String Csv.LF (universal_newlines s')
        end
      else String c (universal_newlines s')
  end.

(** The line boundaries of [str.splitlines()] on the ASCII range, CR
    apart: LF, VT, FF, FS, GS and RS. *)
Definition is_line_boundary (c : ascii) : bool :=
  let n := nat_of_ascii c in
  ((Nat.leb 10 n && Nat.leb n 12) || (Nat.leb 28 n && Nat.leb n 30))%bool.

(** [s.splitlines()], with the characters of the line being read in
    [line]: CR LF counts as one boundary, and a text that ends in a
    boundary has no empty last line. *)
Fixpoint splitlines_from (line : string) (s : string) : list string :=
  match s with
  | EmptyString =>
      match line with
      | EmptyString => []
      | _ => [line]
      end
  | String c s' =>
      if Ascii.eqb c Csv.CR then
        match s' with
        | EmptyString => [line]
        | String d s'' =>
            if Ascii.eqb d Csv.LF then line :: splitlines_from EmptyString s''
            else line :: splitlines_from EmptyString s'
        end
      else if is_line_boundary c then line :: splitlines_from EmptyString s'
      else splitlines_from (line +:+ String c EmptyString) s'
  end.

Definition splitlines (s : string) : list string := splitlines_from EmptyString s.

(** The text the script appends: a line feed, the pattern, a line feed. *)
Definition oos_entry : string :=
  String Csv.LF ("oos/" +:+ String Csv.LF EmptyString).

(** Lines 17-25: the lines of the file, none when it does not exist;
    the entry is appended (and the file created) unless the pattern is one
    of the lines. *)
Definition update_gitignore (file : option string) : option string :=
  let existing_lines :=
    match file with
    | Some content => splitlines (universal_newlines content)
    | None => []
    end in
  if decide ("oos/" ∉ existing_lines)
  then Some (get file "" +:+ oos_entry)
  else file.

(** ** Counts per source (main.py, lines 159-163 and 175-179) *)

(** [counts[elem] = counts.get(elem, 0) + 1] on a dictionary, which keeps
    its keys in the order they were first inserted. *)
Fixpoint counter_add (elem : string) (counts : list (string * Z))
    : list (string * Z) :=
  match counts with
  | [] => [(elem, 1)]
  | (k, n) :: rest =>
      if decide (k = elem) then (k, n + 1) :: rest
      else (k, n) :: counter_add elem rest
  end.

(** [Counter(items)] *)
Definition Counter (items : list string) : list (string * Z) :=
  fold_left (λ counts elem, counter_add elem counts) items [].

(** [counts[k]] of a [Counter]: zero for a key it does not have. *)
Fixpoint counter_get (counts : list (string * Z)) (k : string) : Z :=
  match counts with
  | [] => 0
  | (k', n) :: rest => if decide (k' = k) then n else counter_get rest k
  end.

(** The lines printed by one summary block: the heading, a line per
    source and the total. *)
Definition summary_lines (heading : string) (rs : list Rec) : list string :=
  let source_counts := Counter (map Source rs) in
  [heading]
  ++ map (λ '(src, count), src +:+ ": " +:+ PyStr.of_int count) source_counts
  ++ ["Total: " +:+ PyStr.of_int (Z.of_nat (length rs))].

Definition heading_before : string :=
  String Csv.LF "=== Results per Source (Before Deduplication) ===".

Definition heading_after : string :=
  String Csv.LF "=== Results per Source (After Deduplication) ===".

(** ** The script from top to bottom *)

Definition csv_path : string := "oos/combined_results.csv".

(** What a run leaves: how it ended, what it printed, the ignore file,
    the exported file if one was written, and the two count mappings
    handed to the bar charts. *)
Record Run := mkRun {
  run_outcome : outcome unit;
  run_stdout : list string;
  run_gitignore : option string;
  run_csv : option string;
  run_charts : option (list (string * Z) * list (string * Z))
}.

(** The script on the providers [w] and the ignore file [gitignore]:
    an exception of an adapter ends it where it is raised. *)
Definition script (w : World) (gitignore : option string) : Run :=
  let ignore := update_gitignore gitignore in
  match run_searches w initial with
  | (Ok _, s) =>
      let source_counts_before := Counter (map Source (results s)) in
      let unique_results := deduplicate (results s) in
      let source_counts_after := Counter (map Source unique_results) in
      {| run_outcome := Ok tt;
         run_stdout :=
           stdout s
           ++ summary_lines heading_before (results s)
           ++ summary_lines heading_after unique_results
           ++ [String Csv.LF "Saved "
               +:+ PyStr.of_int (Z.of_nat (length unique_results))
               +:+ " unique records to " +:+ csv_path];
         run_gitignore := ignore;
         run_csv := Some (csv_file unique_results);
         run_charts := Some (source_counts_before, source_counts_after) |}
  | (o, s) =>
      {| run_outcome := o;
         run_stdout := stdout s;
         run_gitignore := ignore;
         run_csv := None;
         run_charts := None |}
  end.

(** ** Vocabulary for the adapters' records *)

(** A text of white space only. *)
Fixpoint blank (s : string) : bool :=
  match s with
  | EmptyString => true
  | String c s' => (PyStr.is_space c && blank s')%bool
  end.

(** A text that neither starts nor ends with white space. *)
Definition trimmed (t : string) : Prop :=
  t = EmptyString
  ∨ ((∃ c u, t = String c u ∧ PyStr.is_space c = false)
     ∧ (∃ u c, t = u +:+ String c EmptyString ∧ PyStr.is_space c = false)).

(** A statement that only appends to [results], records that satisfy
    [P], and that raises nothing but exceptions that satisfy [E]. *)
Definition appends_only (P : Rec → Prop) (E : exn → Prop) (m : M unit) : Prop :=
  ∀ s, ∃ recs,
    results (snd (m s)) = (results s ++ recs)%list
    ∧ Forall P recs
    ∧ match fst (m s) with
      | Raise e => E e
      | _ => True
      end.

(** An arXiv entry without a [title] element, and a provider whose first
    page holds a good entry followed by it. *)
Definition entry_without_title : ArxivEntry :=
  {| atom_title := None;
     atom_author := [Some (Some "A. Author")];
     atom_published := Some (Some "2022-03-01T10:00:00Z");
     atom_summary := Some (Some "Text.");
     atom_id := Some (Some "http://arxiv.org/abs/2203.00002v1") |}.

Definition arxiv_bad_second_entry : World :=
  provider (λ start, mkResponse 200
              (Some (if start =? 0 then [sample_entry; entry_without_title] else [])))
           no_hits.

(** A MEDLINE record and a Europe PMC hit for one paper, the titles with
    different white space around them. *)
Definition padded_medline : MedlineRec :=
  {| TI := Some ("  Virtual patients" +:+ String Csv.LF EmptyString);
     AU := None; DP := Some "2021 Mar"; AB := None; LID := None; PMID := Some "7" |}.

Definition padded_hit : EpmcHit :=
  {| hit_title := Some "Virtual patients ";
     hit_authorList := None;
     hit_pubYear := Some "2021";
     hit_abstractText := None;
     hit_doi := None;
     hit_source := Some "MED";
     hit_id := Some "7" |}.

(** * Properties *)

Local Open Scope list_scope.

(** ** The duplicate filter, for any key function *)

Section DedupFacts.
Context {A K : Type} `{!EqDecision K, !Countable K}.
Variable key : A → K.

Lemma dedup_loop_acc seen unique rs :
  snd (dedup_loop key seen unique rs) = unique ++ dedup_from key seen rs.
Proof.
  unfold dedup_from. revert seen unique.
  induction rs as [|r rs IH]; intros seen unique; simpl.
  - by rewrite app_nil_r.
  - destruct (decide (key r ∈ seen)); [apply IH|].
    rewrite (IH _ (unique ++ [r])), (IH _ [r]).
    by rewrite <- app_assoc.
Qed.

Lemma dedup_from_nil seen : dedup_from key seen [] = [].
Proof. reflexivity. Qed.

Lemma dedup_from_cons seen r rs :
  dedup_from key seen (r :: rs) =
    if decide (key r ∈ seen) then dedup_from key seen rs
    else r :: dedup_from key ({[key r]} ∪ seen) rs.
Proof.
  unfold dedup_from at 1. simpl.
  destruct (decide (key r ∈ seen)); [reflexivity|].
  by rewrite dedup_loop_acc.
Qed.

Lemma dedup_by_from rs : dedup_by key rs = dedup_from key ∅ rs.
Proof. reflexivity. Qed.

(** The set of seen keys after the loop. *)
Lemma dedup_loop_seen seen unique rs :
  fst (dedup_loop key seen unique rs) = seen ∪ list_to_set (key <$> rs).
Proof.
  revert seen unique. induction rs as [|r rs IH]; intros seen unique; simpl.
  - set_solver.
  - destruct (decide (key r ∈ seen)); rewrite IH; set_solver.
Qed.

Lemma dedup_from_app seen l1 l2 :
  dedup_from key seen (l1 ++ l2) =
    dedup_from key seen l1 ++ dedup_from key (seen ∪ list_to_set (key <$> l1)) l2.
Proof.
  revert seen. induction l1 as [|r l1 IH]; intros seen.
  - rewrite dedup_from_nil, fmap_nil, list_to_set_nil, (right_id_L ∅ (∪)).
    reflexivity.
  - rewrite <- app_comm_cons, !dedup_from_cons, fmap_cons, list_to_set_cons.
    destruct (decide (key r ∈ seen)) as [Hin|Hnin]; rewrite IH.
    + replace (seen ∪ ({[key r]} ∪ list_to_set (key <$> l1)))
        with (seen ∪ (list_to_set (key <$> l1) : gset K)) by set_solver.
      reflexivity.
    + rewrite <- app_comm_cons.
      replace (seen ∪ ({[key r]} ∪ list_to_set (key <$> l1)))
        with ({[key r]} ∪ seen ∪ (list_to_set (key <$> l1) : gset K))
        by set_solver.
      reflexivity.
Qed.

Lemma dedup_from_sublist seen rs : sublist (dedup_from key seen rs) rs.
Proof.
  revert seen. induction rs as [|r rs IH]; intros seen.
  - constructor.
  - rewrite dedup_from_cons. destruct (decide (key r ∈ seen)).
    + by apply sublist_cons.
    + by apply sublist_skip.
Qed.

Lemma dedup_from_fresh seen rs x :
  x ∈ dedup_from key seen rs → key x ∉ seen.
Proof.
  revert seen. induction rs as [|r rs IH]; intros seen.
  - rewrite dedup_from_nil. by intros ?%elem_of_nil.
  - rewrite dedup_from_cons. destruct (decide (key r ∈ seen)).
    + apply IH.
    + intros [->|Hin]%elem_of_cons; [done|].
      apply IH in Hin. set_solver.
Qed.

Lemma dedup_from_NoDup seen rs : NoDup (key <$> dedup_from key seen rs).
Proof.
  revert seen. induction rs as [|r rs IH]; intros seen.
  - constructor.
  - rewrite dedup_from_cons. destruct (decide (key r ∈ seen)); [apply IH|].
    simpl. constructor; [|apply IH].
    intros (y & Hk & Hy)%list_elem_of_fmap.
    apply dedup_from_fresh in Hy. set_solver.
Qed.

Lemma dedup_from_covers seen rs x :
  x ∈ rs → key x ∉ seen → key x ∈ key <$> dedup_from key seen rs.
Proof.
  revert seen. induction rs as [|r rs IH]; intros seen.
  - by intros ?%elem_of_nil.
  - rewrite dedup_from_cons.
    intros [->|Hin]%elem_of_cons Hx.
    + rewrite decide_False by done. simpl. left.
    + destruct (decide (key r ∈ seen)); [by apply IH|].
      simpl. destruct (decide (key x = key r)) as [->|Hne]; [left|].
      right. apply IH; [done|]. set_solver.
Qed.

(** A list whose keys are pairwise different and unseen passes whole. *)
Lemma dedup_from_id seen rs :
  NoDup (key <$> rs) → (∀ x, x ∈ rs → key x ∉ seen) →
  dedup_from key seen rs = rs.
Proof.
  revert seen. induction rs as [|r rs IH]; intros seen Hnd Hseen.
  - reflexivity.
  - rewrite dedup_from_cons.
    rewrite decide_False by (apply Hseen; left).
    simpl in Hnd. apply NoDup_cons in Hnd as [Hr Hnd].
    f_equal. apply IH; [done|].
    intros x Hx. specialize (Hseen x (list_elem_of_further _ _ _ Hx)).
    assert (key x ≠ key r).
    { intros Heq. apply Hr. rewrite <- Heq. by apply list_elem_of_fmap_2. }
    set_solver.
Qed.

Lemma dedup_by_snoc l x :
  dedup_by key (l ++ [x]) =
    if decide (key x ∈ key <$> l) then dedup_by key l
    else dedup_by key l ++ [x].
Proof.
  rewrite !dedup_by_from, dedup_from_app, dedup_from_cons, dedup_from_nil.
  destruct (decide (key x ∈ key <$> l)) as [Hin|Hnin].
  - rewrite decide_True by set_solver. by rewrite app_nil_r.
  - rewrite decide_False by set_solver. reflexivity.
Qed.

Lemma dedup_by_first l1 x l2 :
  key x ∉ key <$> l1 →
  ∃ u, dedup_by key (l1 ++ x :: l2) = dedup_by key l1 ++ x :: u.
Proof.
  intros Hx. rewrite !dedup_by_from, dedup_from_app, dedup_from_cons.
  rewrite decide_False by set_solver. eauto.
Qed.

Lemma dedup_by_idem l : dedup_by key (dedup_by key l) = dedup_by key l.
Proof.
  rewrite (dedup_by_from (dedup_by key l)). apply dedup_from_id.
  - rewrite dedup_by_from. apply dedup_from_NoDup.
  - set_solver.
Qed.
End DedupFacts.

(** ** Case-insensitive identity of titles *)









Lemma deduplicate_pair r1 r2 :
  deduplicate [r1; r2] =
    if decide (dedup_key r1 = dedup_key r2) then [r1] else [r1; r2].
Proof.
  unfold deduplicate. rewrite dedup_by_from, !dedup_from_cons, !dedup_from_nil.
  rewrite decide_False by apply not_elem_of_empty.
  destruct (decide (dedup_key r1 = dedup_key r2)) as [Heq|Hne].
  - rewrite decide_True; [done|].
    apply elem_of_union_l, elem_of_singleton. done.
  - rewrite decide_False; [done|].
    intros [Hin|Hin]%elem_of_union.
    + apply elem_of_singleton in Hin. by apply Hne.
    + by apply not_elem_of_empty in Hin.
Qed.


(** C2.  The output of the filter is a subsequence of its input (the
    surviving records are the input's own, in input order, so it is no
    longer than the input); no two records of it share a key; every key of
    the input has its record in it; and the record kept for a key is its
    first occurrence: a record that no earlier record shares its key with
    is kept, right after what the records before it leave, and a later
    record with a key already met is dropped. *)
Theorem deduplicate_first_occurrences (results : list Rec) :
  sublist (deduplicate results) results
  ∧ (length (deduplicate results) ≤ length results)%nat
  ∧ NoDup (dedup_key <$> deduplicate results)
  ∧ (∀ r, r ∈ results → dedup_key r ∈ dedup_key <$> deduplicate results)
  ∧ (∀ before r after, results = before ++ r :: after →
       dedup_key r ∉ dedup_key <$> before →
       ∃ rest, deduplicate results = deduplicate before ++ r :: rest)
  ∧ (∀ r, deduplicate (results ++ [r]) =
       if decide (dedup_key r ∈ dedup_key <$> results)
       then deduplicate results
       else deduplicate results ++ [r]).
Proof.
  unfold deduplicate. rewrite dedup_by_from.
  split; [apply dedup_from_sublist|].
  split; [apply sublist_length, dedup_from_sublist|].
  split; [apply dedup_from_NoDup|].
  split; [intros r Hr; apply dedup_from_covers; [done|set_solver]|].
  split.
  - intros before r after -> Hr. rewrite <- dedup_by_from.
    by apply dedup_by_first.
  - intros r. rewrite <- !dedup_by_from. apply dedup_by_snoc.
Qed.

(** C6.  Filtering the output of the filter again changes nothing. *)
Theorem deduplicate_idempotent (results : list Rec) :
  deduplicate (deduplicate results) = deduplicate results.
Proof. apply dedup_by_idem. Qed.

(** ** Statements and loops of the adapters *)

Lemma bind_eq {A B} (m : M A) (k : A → M B) s :
  (m ≫= k) s =
    match m s with
    | (Ok a, s') => k a s'
    | (Raise e, s') => (Raise e, s')
    | (OutOfFuel, s') => (OutOfFuel, s')
    end.
Proof. reflexivity. Qed.

Lemma send_bind {B} q (k : unit → M B) s :
  (send q ≫= k) s = k tt (add_sent s [q]).
Proof. reflexivity. Qed.

Lemma add_results_nil s : add_results s [] = s.
Proof. destruct s. unfold add_results. simpl. by rewrite app_nil_r. Qed.

Lemma add_results_app s l1 l2 :
  add_results (add_results s l1) l2 = add_results s (l1 ++ l2).
Proof. unfold add_results. simpl. by rewrite app_assoc. Qed.

Lemma add_sent_app s l1 l2 :
  add_sent (add_sent s l1) l2 = add_sent s (l1 ++ l2).
Proof. unfold add_sent. simpl. by rewrite app_assoc. Qed.

Lemma add_results_sent s recs qs :
  add_results (add_sent s qs) recs = add_sent (add_results s recs) qs.
Proof. reflexivity. Qed.

(** A loop of appends: the records of [collect] are appended, and the
    loop ends as [collect] says. *)
Lemma for_each_collect {A} (f : A → exn + Rec) xs s :
  for_each xs (λ x, append_expr (f x)) s =
    (snd (collect f xs), add_results s (fst (collect f xs))).
Proof.
  revert s. induction xs as [|x xs IH]; intros s.
  - simpl. by rewrite add_results_nil.
  - cbn [for_each collect]. rewrite bind_eq.
    unfold append_expr at 1. rewrite bind_eq.
    destruct (f x) as [e|r]; simpl.
    + by rewrite add_results_nil.
    + change (append r s) with (Ok tt, add_results s [r]). cbn iota.
      rewrite IH. destruct (collect f xs) as [rs o]. simpl.
      unfold add_results. simpl. by rewrite <- app_assoc.
Qed.

Lemma collect_length {A} (f : A → exn + Rec) xs :
  (length (fst (collect f xs)) ≤ length xs)%nat.
Proof.
  induction xs as [|x xs IH]; simpl; [lia|].
  destruct (f x); simpl; [lia|].
  destruct (collect f xs). simpl in *. lia.
Qed.

Lemma collect_no_fuel {A} (f : A → exn + Rec) xs :
  snd (collect f xs) ≠ OutOfFuel.
Proof.
  induction xs as [|x xs IH]; simpl; [done|].
  destruct (f x); simpl; [done|]. by destruct (collect f xs).
Qed.

Lemma collect_ok {A} (f : A → exn + Rec) xs :
  snd (collect f xs) = Ok tt → length (fst (collect f xs)) = length xs.
Proof.
  induction xs as [|x xs IH]; simpl; [done|].
  destruct (f x); simpl; [done|].
  destruct (collect f xs). simpl in *. intros Ho. by rewrite IH.
Qed.

(** When no record expression raises, all the records are appended. *)
Lemma collect_all {A} (f : A → exn + Rec) (g : A → Rec) xs :
  (∀ x, x ∈ xs → f x = inr (g x)) → collect f xs = (g <$> xs, Ok tt).
Proof.
  induction xs as [|x xs IH]; intros Hf; simpl; [done|].
  rewrite (Hf x) by left.
  rewrite IH; [done|]. intros y Hy. apply Hf. by right.
Qed.

(** A loop of appends whose record expression cannot raise. *)
Lemma for_each_append {A} (g : A → Rec) xs s :
  for_each xs (λ x, append (g x)) s = (Ok tt, add_results s (g <$> xs)).
Proof.
  revert s. induction xs as [|x xs IH]; intros s.
  - simpl. by rewrite add_results_nil.
  - cbn [for_each]. rewrite bind_eq.
    change (append (g x) s) with (Ok tt, add_results s [g x]). cbn iota.
    rewrite IH. by rewrite add_results_app.
Qed.

Lemma arxiv_loop_eq w budget fuel start retrieved :
  arxiv_loop w budget fuel start retrieved =
    if retrieved <? budget then
      match fuel with
      | O => out_of_fuel
      | S fuel' =>
          send (ArxivGet (arxiv_url start arxiv_batch_size));;
          match body (arxiv_get w start arxiv_batch_size) with
          | None => raise ParseError
          | Some entries =>
              match entries with
              | [] => mret tt
              | _ =>
                  for_each entries (λ entry, append_expr (arxiv_record entry));;
                  arxiv_loop w budget fuel'
                    (start + arxiv_batch_size) (retrieved + Z.of_nat (length entries))
              end
          end
      end
    else mret tt.
Proof. destruct fuel; reflexivity. Qed.

(** The arXiv loop from any point, with fuel for the pages that the
    budget leaves room for: it never runs out of fuel; it sends one
    request per page, [n] of them, at most as many as the budget leaves
    room for; it only appends records; when it ends normally, the count
    has reached the budget or the last page fetched was empty; and with
    pages of at most [size] entries the count ends below
    [budget + size]. *)
Lemma arxiv_loop_inv w budget fuel :
  ∀ start retrieved s,
    (Z.to_nat (budget - retrieved) ≤ fuel)%nat →
    ∃ n recs o,
      arxiv_loop w budget fuel start retrieved s =
        (o, add_sent (add_results s recs) (arxiv_requests start n))
      ∧ (n ≤ Z.to_nat (budget - retrieved))%nat
      ∧ o ≠ OutOfFuel
      ∧ (o = Ok tt →
           budget ≤ retrieved + Z.of_nat (length recs)
           ∨ ∃ k, n = S k
                  ∧ body (arxiv_get w (start + arxiv_batch_size * Z.of_nat k)
                            arxiv_batch_size) = Some [])
      ∧ (∀ size, 0 ≤ size → arxiv_pages_within w size →
           retrieved + Z.of_nat (length recs)
           ≤ Z.max retrieved (budget - 1 + size)).
Proof.
  induction fuel as [|fuel IH]; intros start retrieved s Hfuel;
    rewrite arxiv_loop_eq; destruct (Z.ltb_spec retrieved budget) as [Hlt|Hge].
  - lia.
  - exists O, [], (Ok tt). simpl. rewrite add_results_nil.
    unfold add_sent. simpl. rewrite app_nil_r. destruct s.
    repeat split; try done; try lia; intros _; left; lia.
  - rewrite send_bind.
    destruct (body (arxiv_get w start arxiv_batch_size)) as [entries|] eqn:Hbody.
    + destruct entries as [|entry entries].
      * exists 1%nat, [], (Ok tt). rewrite add_results_nil.
        repeat split; try done; try lia.
        -- intros _. right. exists O. split; [done|].
           by rewrite Z.mul_0_r, Z.add_0_r.
        -- intros size Hsize _. simpl. lia.
      * set (page := entry :: entries) in *.
        rewrite bind_eq, for_each_collect.
        pose proof (collect_length arxiv_record page) as Hlen.
        pose proof (collect_no_fuel arxiv_record page) as Hnf.
        pose proof (collect_ok arxiv_record page) as Hok.
        destruct (collect arxiv_record page) as [recs1 o1]. cbn [fst snd] in *.
        assert (Hpos : (1 ≤ length page)%nat) by (subst page; simpl; lia).
        clearbody page.
        destruct o1 as [[]|e|]; cbn beta iota; [|clear IH|done].
        -- specialize (Hok eq_refl).
           destruct (IH (start + arxiv_batch_size)
                        (retrieved + Z.of_nat (length page))
                        (add_results (add_sent s [ArxivGet (arxiv_url start arxiv_batch_size)]) recs1))
             as (n & recs2 & o & Heq & Hn & Ho & Hexit & Hbound); [lia|].
           exists (S n), (recs1 ++ recs2), o. rewrite Heq.
           split; [|split; [lia|split; [done|split]]].
           ++ unfold add_sent, add_results.
              cbn [arxiv_requests results stdout sent].
              by rewrite <- !app_assoc.
           ++ intros Hfin. rewrite length_app, Nat2Z.inj_add, Hok.
              destruct (Hexit Hfin) as [Hb|(k & -> & Hk)]; [left; lia|].
              right. exists (S k). split; [done|].
              replace (start + arxiv_batch_size * Z.of_nat (S k))
                with (start + arxiv_batch_size + arxiv_batch_size * Z.of_nat k)
                by (unfold arxiv_batch_size; lia).
              done.
           ++ intros size Hsize Hw. rewrite length_app, Nat2Z.inj_add, Hok.
              specialize (Hbound size Hsize Hw).
              pose proof (Hw _ _ Hbody). lia.
        -- exists 1%nat, recs1, (Raise e).
           split; [reflexivity|split; [lia|split; [done|split; [done|]]]].
           intros size Hsize Hw. pose proof (Hw _ _ Hbody). lia.
    + exists 1%nat, [], (Raise ParseError). rewrite add_results_nil.
      repeat split; try done; try lia.
      intros size Hsize _. simpl. lia.
  - exists O, [], (Ok tt). simpl. rewrite add_results_nil.
    unfold add_sent. simpl. rewrite app_nil_r. destruct s.
    repeat split; try done; try lia; intros _; left; lia.
Qed.

(** The arXiv loop on a provider whose pages from [start] on all hold
    [size] well-formed entries: it fetches [k] pages, appends [size * k]
    records and ends normally, where [k] is the number of pages it takes
    for the count to reach the budget. *)
Lemma arxiv_loop_full_pages w budget (size : nat) (g : ArxivEntry → Rec) :
  (1 ≤ size)%nat →
  ∀ (k fuel : nat) start retrieved s,
    (∀ j : nat, ∃ entries,
        body (arxiv_get w (start + arxiv_batch_size * Z.of_nat j) arxiv_batch_size)
          = Some entries
        ∧ length entries = size
        ∧ ∀ e, e ∈ entries → arxiv_record e = inr (g e)) →
    budget ≤ retrieved + Z.of_nat size * Z.of_nat k →
    ((1 ≤ k)%nat → retrieved + Z.of_nat size * (Z.of_nat k - 1) < budget) →
    (k ≤ fuel)%nat →
    ∃ recs,
      arxiv_loop w budget fuel start retrieved s =
        (Ok tt, add_sent (add_results s recs) (arxiv_requests start k))
      ∧ length recs = (size * k)%nat.
Proof.
  intros Hsize. induction k as [|k IH]; intros fuel start retrieved s Hw Hup Hlow Hfuel;
    rewrite arxiv_loop_eq.
  - destruct (Z.ltb_spec retrieved budget) as [Hlt|Hge]; [lia|].
    exists []. rewrite add_results_nil. unfold add_sent. simpl.
    rewrite app_nil_r. destruct s. split; [done|lia].
  - destruct (Z.ltb_spec retrieved budget) as [Hlt|Hge]; [|nia].
    destruct fuel as [|fuel]; [lia|].
    rewrite send_bind.
    destruct (Hw O) as (entries & Hbody & Hlen & Hgood).
    rewrite Z.mul_0_r, Z.add_0_r in Hbody. rewrite Hbody.
    destruct entries as [|entry entries]; [simpl in Hlen; lia|].
    set (page := entry :: entries) in *. clearbody page.
    rewrite bind_eq, for_each_collect, (collect_all _ g) by done.
    cbn [fst snd]. cbn beta iota.
    destruct (IH fuel (start + arxiv_batch_size)
                (retrieved + Z.of_nat (length page))
                (add_results (add_sent s [ArxivGet (arxiv_url start arxiv_batch_size)])
                   (g <$> page)))
      as (recs & Heq & Hrecs).
    + intros j. destruct (Hw (S j)) as (es & Hes & Hl & Hg).
      exists es. split; [|done]. rewrite <- Hes.
      replace (start + arxiv_batch_size + arxiv_batch_size * Z.of_nat j)
        with (start + arxiv_batch_size * Z.of_nat (S j))
        by (unfold arxiv_batch_size; lia).
      done.
    + rewrite Hlen. nia.
    + intros Hk. rewrite Hlen. nia.
    + lia.
    + exists ((g <$> page) ++ recs). rewrite Heq. split.
      * unfold add_sent, add_results.
        cbn [arxiv_requests results stdout sent].
        by rewrite <- !app_assoc.
      * rewrite length_app, length_fmap, Hlen, Hrecs. nia.
Qed.

Lemma print_eq line s : print line s = (Ok tt, add_stdout s [line]).
Proof. reflexivity. Qed.

Lemma europe_pmc_loop_eq w budget fuel retrieved page :
  europe_pmc_loop w budget fuel retrieved page =
    if retrieved <? budget then
      match fuel with
      | O => out_of_fuel
      | S fuel' =>
          send (EuropePmcGet QUERY "json" epmc_page_size page);;
          let r := europe_pmc_get w QUERY epmc_page_size page in
          if decide (status_code r ≠ 200) then
            print (europe_pmc_diagnostic (status_code r))
          else
            match body r with
            | None => raise JSONDecodeError
            | Some data =>
                match epmc_hit_list data with
                | [] => mret tt
                | _ :: _ =>
                    for_each (epmc_hit_list data) (λ hit, append (epmc_record hit));;
                    europe_pmc_loop w budget fuel'
                      (retrieved + Z.of_nat (length (epmc_hit_list data))) (page + 1)
                end
            end
      end
    else mret tt.
Proof.
  destruct fuel; [reflexivity|]. cbn [europe_pmc_loop].
  destruct (retrieved <? budget); [|reflexivity].
  f_equal.
  destruct (decide _); [reflexivity|].
  destruct (body _) as [data|]; [|reflexivity].
  by destruct (epmc_hit_list data).
Qed.

(** The Europe PMC loop from any point, with fuel for the pages that the
    budget leaves room for: it never runs out of fuel; it sends one
    request per page, [n] of them; it appends the records of the pages it
    read and nothing else; when a page comes back with a status other
    than 200 it prints the diagnostic for that status and ends normally,
    and it prints nothing otherwise; and with pages of at most [size] hits
    the count ends below [budget + size]. *)
Lemma europe_pmc_loop_inv w budget fuel :
  ∀ retrieved page s,
    (Z.to_nat (budget - retrieved) ≤ fuel)%nat →
    ∃ n out o,
      europe_pmc_loop w budget fuel retrieved page s =
        (o, add_stdout
              (add_sent (add_results s (europe_pmc_collected w page n))
                 (europe_pmc_requests page n)) out)
      ∧ (n ≤ Z.to_nat (budget - retrieved))%nat
      ∧ o ≠ OutOfFuel
      ∧ ((out = []
          ∧ ∀ k, (k < n)%nat →
              status_code (europe_pmc_get w QUERY epmc_page_size (page + Z.of_nat k)) = 200)
         ∨ (∃ k, n = S k
              ∧ status_code (europe_pmc_get w QUERY epmc_page_size (page + Z.of_nat k)) ≠ 200
              ∧ out = [europe_pmc_diagnostic
                         (status_code (europe_pmc_get w QUERY epmc_page_size
                                         (page + Z.of_nat k)))]
              ∧ o = Ok tt))
      ∧ (∀ size, 0 ≤ size → europe_pmc_pages_within w size →
           retrieved + Z.of_nat (length (europe_pmc_collected w page n))
           ≤ Z.max retrieved (budget - 1 + size)).
Proof.
  induction fuel as [|fuel IH]; intros retrieved page s Hfuel;
    rewrite europe_pmc_loop_eq; destruct (Z.ltb_spec retrieved budget) as [Hlt|Hge].
  - lia.
  - exists O, [], (Ok tt). cbn [europe_pmc_collected europe_pmc_requests].
    unfold add_stdout, add_sent, add_results. simpl. rewrite !app_nil_r.
    destruct s. repeat split; try done; try lia.
    left. split; [done|]. intros k Hk. lia.
  - rewrite send_bind. cbn zeta.
    destruct (decide (status_code (europe_pmc_get w QUERY epmc_page_size page) ≠ 200))
      as [Hbad|Hgood].
    + exists 1%nat, [europe_pmc_diagnostic
                      (status_code (europe_pmc_get w QUERY epmc_page_size page))], (Ok tt).
      cbn [europe_pmc_collected europe_pmc_requests]. cbn zeta.
      rewrite decide_True by done. rewrite print_eq.
      split; [|split; [lia|split; [done|split]]].
      * unfold add_stdout, add_sent, add_results. simpl. by rewrite !app_nil_r.
      * right. exists O. by rewrite Z.add_0_r.
      * intros size Hsize _. simpl. lia.
    + apply dec_stable in Hgood.
      destruct (body (europe_pmc_get w QUERY epmc_page_size page)) as [data|] eqn:Hbody.
      * destruct (epmc_hit_list data) as [|hit hits] eqn:Hhits.
        -- exists 1%nat, [], (Ok tt).
           cbn [europe_pmc_collected europe_pmc_requests]. cbn zeta.
           rewrite decide_False by (by intros ?). rewrite Hbody, Hhits.
           split; [|split; [lia|split; [done|split]]].
           ++ unfold add_stdout, add_sent, add_results. simpl.
              by rewrite !app_nil_r.
           ++ left. split; [done|]. intros k Hk.
              replace k with O by lia. by rewrite Z.add_0_r.
           ++ intros size Hsize _. simpl. lia.
        -- rewrite <- Hhits. rewrite bind_eq, for_each_append. cbn beta iota.
           assert (Hpos : (1 ≤ length (epmc_hit_list data))%nat)
             by (rewrite Hhits; simpl; lia).
           destruct (IH (retrieved + Z.of_nat (length (epmc_hit_list data))) (page + 1)
                        (add_results
                           (add_sent s [EuropePmcGet QUERY "json" epmc_page_size page])
                           (epmc_record <$> epmc_hit_list data)))
             as (n & out & o & Heq & Hn & Ho & Hstatus & Hbound); [lia|].
           exists (S n), out, o. rewrite Heq.
           cbn [europe_pmc_collected europe_pmc_requests]. cbn zeta.
           rewrite decide_False by (by intros ?). rewrite Hbody.
           split; [|split; [lia|split; [done|split]]].
           ++ unfold add_stdout, add_sent, add_results.
              cbn [results stdout sent]. by rewrite <- !app_assoc.
           ++ destruct Hstatus as [[-> Hall]|(k & -> & Hk & -> & ->)].
              ** left. split; [done|]. intros [|k] Hk.
                 --- by rewrite Z.add_0_r.
                 --- replace (page + Z.of_nat (S k)) with (page + 1 + Z.of_nat k) by lia.
                     apply Hall. lia.
              ** right. exists (S k).
                 replace (page + Z.of_nat (S k)) with (page + 1 + Z.of_nat k) by lia.
                 done.
           ++ intros size Hsize Hw. rewrite length_app, length_fmap, Nat2Z.inj_add.
              specialize (Hbound size Hsize Hw).
              pose proof (Hw _ _ Hbody). lia.
      * exists 1%nat, [], (Raise JSONDecodeError).
        cbn [europe_pmc_collected europe_pmc_requests]. cbn zeta.
        rewrite decide_False by (by intros ?). rewrite Hbody.
        split; [|split; [lia|split; [done|split]]].
        -- unfold add_stdout, add_sent, add_results. simpl. by rewrite !app_nil_r.
        -- left. split; [done|]. intros k Hk.
           replace k with O by lia. by rewrite Z.add_0_r.
        -- intros size Hsize _. simpl. lia.
  - exists O, [], (Ok tt). cbn [europe_pmc_collected europe_pmc_requests].
    unfold add_stdout, add_sent, add_results. simpl. rewrite !app_nil_r.
    destruct s. repeat split; try done; try lia.
    left. split; [done|]. intros k Hk. lia.
Qed.

(** The Europe PMC loop on a provider whose pages from [page] on all come
    with status 200 and [size] hits. *)
Lemma europe_pmc_loop_full_pages w budget (size : nat) :
  (1 ≤ size)%nat →
  ∀ (k fuel : nat) retrieved page s,
    (∀ j : nat,
        status_code (europe_pmc_get w QUERY epmc_page_size (page + Z.of_nat j)) = 200
        ∧ ∃ data,
            body (europe_pmc_get w QUERY epmc_page_size (page + Z.of_nat j)) = Some data
            ∧ length (epmc_hit_list data) = size) →
    budget ≤ retrieved + Z.of_nat size * Z.of_nat k →
    ((1 ≤ k)%nat → retrieved + Z.of_nat size * (Z.of_nat k - 1) < budget) →
    (k ≤ fuel)%nat →
    ∃ recs,
      europe_pmc_loop w budget fuel retrieved page s =
        (Ok tt, add_sent (add_results s recs) (europe_pmc_requests page k))
      ∧ length recs = (size * k)%nat.
Proof.
  intros Hsize. induction k as [|k IH]; intros fuel retrieved page s Hw Hup Hlow Hfuel;
    rewrite europe_pmc_loop_eq.
  - destruct (Z.ltb_spec retrieved budget) as [Hlt|Hge]; [lia|].
    exists []. rewrite add_results_nil. unfold add_sent. simpl.
    rewrite app_nil_r. destruct s. split; [done|lia].
  - destruct (Z.ltb_spec retrieved budget) as [Hlt|Hge]; [|nia].
    destruct fuel as [|fuel]; [lia|].
    rewrite send_bind. cbn zeta.
    destruct (Hw O) as (Hstatus & data & Hbody & Hlen).
    rewrite Z.add_0_r in Hstatus, Hbody.
    rewrite decide_False by (by intros ?). rewrite Hbody.
    destruct (epmc_hit_list data) as [|hit hit_list] eqn:Hhits;
      [simpl in Hlen; lia|].
    rewrite <- Hhits in Hlen |- *. rewrite bind_eq, for_each_append. cbn beta iota.
    destruct (IH fuel (retrieved + Z.of_nat (length (epmc_hit_list data))) (page + 1)
                (add_results (add_sent s [EuropePmcGet QUERY "json" epmc_page_size page])
                   (epmc_record <$> epmc_hit_list data)))
      as (recs & Heq & Hrecs).
    + intros j. replace (page + 1 + Z.of_nat j) with (page + Z.of_nat (S j)) by lia.
      apply Hw.
    + rewrite Hlen. nia.
    + intros Hk. rewrite Hlen. nia.
    + lia.
    + exists ((epmc_record <$> epmc_hit_list data) ++ recs). rewrite Heq. split.
      * unfold add_sent, add_results.
        cbn [europe_pmc_requests results stdout sent].
        by rewrite <- !app_assoc.
      * rewrite length_app, length_fmap, Hlen, Hrecs. nia.
Qed.

Lemma sample_entry_record : arxiv_record sample_entry = inr sample_record.
Proof. reflexivity. Qed.

Lemma max_results_fuel : ∃ fuel, Z.to_nat MAX_RESULTS = S fuel ∧ (1000 ≤ fuel)%nat.
Proof. exists (Z.to_nat (MAX_RESULTS - 1)). unfold MAX_RESULTS. lia. Qed.


(** One turn of the arXiv loop on a page with entries. *)
Lemma arxiv_loop_step w budget fuel start retrieved s entries :
  retrieved < budget →
  body (arxiv_get w start arxiv_batch_size) = Some entries →
  entries ≠ [] →
  arxiv_loop w budget (S fuel) start retrieved s =
    (for_each entries (λ entry, append_expr (arxiv_record entry));;
     arxiv_loop w budget fuel (start + arxiv_batch_size)
       (retrieved + Z.of_nat (length entries)))
      (add_sent s [ArxivGet (arxiv_url start arxiv_batch_size)]).
Proof.
  intros Hlt Hbody Hne. rewrite arxiv_loop_eq.
  destruct (Z.ltb_spec retrieved budget); [|lia].
  rewrite send_bind, Hbody. by destruct entries.
Qed.

(** One turn of the Europe PMC loop on a page with hits. *)
Lemma europe_pmc_loop_step w budget fuel retrieved page s data :
  retrieved < budget →
  status_code (europe_pmc_get w QUERY epmc_page_size page) = 200 →
  body (europe_pmc_get w QUERY epmc_page_size page) = Some data →
  epmc_hit_list data ≠ [] →
  europe_pmc_loop w budget (S fuel) retrieved page s =
    (for_each (epmc_hit_list data) (λ hit, append (epmc_record hit));;
     europe_pmc_loop w budget fuel
       (retrieved + Z.of_nat (length (epmc_hit_list data))) (page + 1))
      (add_sent s [EuropePmcGet QUERY "json" epmc_page_size page]).
Proof.
  intros Hlt Hstatus Hbody Hne. rewrite europe_pmc_loop_eq.
  destruct (Z.ltb_spec retrieved budget); [|lia].
  rewrite send_bind. cbn zeta.
  rewrite decide_False by (by intros ?). rewrite Hbody.
  by destruct (epmc_hit_list data).
Qed.

(** A first arXiv page of 199 entries followed by pages of 200: 501 pages
    are fetched and [MAX_RESULTS + 199] records appended. *)
Lemma search_arxiv_short_first_page s :
  ∃ recs,
    search_arxiv arxiv_short_first_page s =
      (Ok tt, add_sent (add_results s recs) (arxiv_requests 0 501))
    ∧ Z.of_nat (length recs) = MAX_RESULTS + 199.
Proof.
  unfold search_arxiv. destruct max_results_fuel as (fuel & -> & Hfuel).
  rewrite (arxiv_loop_step _ _ _ _ _ _ (replicate 199 sample_entry));
    [|done|done|done].
  rewrite bind_eq, for_each_collect, (collect_all _ (λ _, sample_record)).
  2:{ intros e [-> _]%elem_of_replicate. apply sample_entry_record. }
  cbn [fst snd]. cbn beta iota. rewrite length_replicate.
  destruct (arxiv_loop_full_pages arxiv_short_first_page MAX_RESULTS 200
              (λ _, sample_record) ltac:(lia) 500 fuel
              (0 + arxiv_batch_size) (0 + Z.of_nat 199)
              (add_results (add_sent s [ArxivGet (arxiv_url 0 arxiv_batch_size)])
                 ((λ _, sample_record) <$> replicate 199 sample_entry)))
    as (recs & Heq & Hlen).
  - intros j. exists (replicate 200 sample_entry). split; [|split].
    + cbn [arxiv_short_first_page provider arxiv_get body].
      destruct (Z.eqb_spec (0 + arxiv_batch_size + arxiv_batch_size * Z.of_nat j) 0)
        as [H0|_]; [unfold arxiv_batch_size in H0; lia|done].
    + apply length_replicate.
    + intros e [-> _]%elem_of_replicate. apply sample_entry_record.
  - unfold MAX_RESULTS. lia.
  - intros _. unfold MAX_RESULTS. lia.
  - lia.
  - exists (((λ _, sample_record) <$> replicate 199 sample_entry) ++ recs).
    rewrite Heq. split.
    + unfold add_sent, add_results. cbn [results stdout sent].
      rewrite <- !app_assoc. reflexivity.
    + rewrite length_app, length_fmap, length_replicate, Hlen.
      unfold MAX_RESULTS. lia.
Qed.

(** A first Europe PMC page of 99 hits followed by pages of 100: 1001
    pages are fetched and [MAX_RESULTS + 99] records appended. *)
Lemma search_europe_pmc_short_first_page s :
  ∃ recs,
    search_europe_pmc europe_pmc_short_first_page s =
      (Ok tt, add_sent (add_results s recs) (europe_pmc_requests 1 1001))
    ∧ Z.of_nat (length recs) = MAX_RESULTS + 99.
Proof.
  unfold search_europe_pmc. destruct max_results_fuel as (fuel & -> & Hfuel).
  rewrite (europe_pmc_loop_step _ _ _ _ _ _
             {| resultList := Some (Some (replicate 99 sample_hit)) |});
    [|done|done|done|done].
  rewrite bind_eq, for_each_append. cbn beta iota.
  cbn [epmc_hit_list resultList get]. rewrite length_replicate.
  destruct (europe_pmc_loop_full_pages europe_pmc_short_first_page MAX_RESULTS 100
              ltac:(lia) 1000 fuel (0 + Z.of_nat 99) (1 + 1)
              (add_results (add_sent s [EuropePmcGet QUERY "json" epmc_page_size 1])
                 (epmc_record <$> replicate 99 sample_hit)))
    as (recs & Heq & Hlen).
  - intros j.
    cbn [europe_pmc_short_first_page provider europe_pmc_get].
    destruct (Z.eqb_spec (1 + 1 + Z.of_nat j) 1) as [H0|_]; [lia|].
    split; [done|]. eexists. split; [reflexivity|].
    cbn [epmc_hit_list resultList get]. apply length_replicate.
  - unfold MAX_RESULTS. lia.
  - intros _. unfold MAX_RESULTS. lia.
  - lia.
  - exists ((epmc_record <$> replicate 99 sample_hit) ++ recs).
    rewrite Heq. split.
    + unfold add_sent, add_results. cbn [results stdout sent].
      rewrite <- !app_assoc. reflexivity.
    + rewrite length_app, length_fmap, length_replicate, Hlen.
      unfold MAX_RESULTS. lia.
Qed.

(** ** Termination and page overshoot of the paginated adapters *)



Lemma arxiv_short_first_page_within :
  arxiv_pages_within arxiv_short_first_page arxiv_batch_size.
Proof.
  intros start entries. cbn [arxiv_short_first_page provider arxiv_get body].
  intros [= <-]. rewrite length_replicate.
  unfold arxiv_batch_size. destruct (start =? 0); lia.
Qed.

Lemma europe_pmc_short_first_page_within :
  europe_pmc_pages_within europe_pmc_short_first_page epmc_page_size.
Proof.
  intros page data.
  cbn [europe_pmc_short_first_page provider europe_pmc_get hits body].
  intros [= <-]. cbn [epmc_hit_list resultList get]. rewrite length_replicate.
  unfold epmc_page_size. destruct (page =? 1); lia.
Qed.

(** C10.  With pages of at most 200 entries the arXiv adapter appends at
    most [MAX_RESULTS + 199] records, and with pages of at most 100 hits
    the Europe PMC adapter at most [MAX_RESULTS + 99], however the run
    ends; both bounds are reached: the budget is tested before a page is
    fetched, and every item of a fetched page is appended. *)
Theorem paginated_overshoot :
  (∀ (w : World) (s : State),
     arxiv_pages_within w arxiv_batch_size →
     ∃ recs,
       results (snd (search_arxiv w s)) = results s ++ recs
       ∧ Z.of_nat (length recs) ≤ MAX_RESULTS + 199)
  ∧ (∃ (w : World) recs,
       arxiv_pages_within w arxiv_batch_size
       ∧ fst (search_arxiv w initial) = Ok tt
       ∧ results (snd (search_arxiv w initial)) = recs
       ∧ Z.of_nat (length recs) = MAX_RESULTS + 199)
  ∧ (∀ (w : World) (s : State),
       europe_pmc_pages_within w epmc_page_size →
       ∃ recs,
         results (snd (search_europe_pmc w s)) = results s ++ recs
         ∧ Z.of_nat (length recs) ≤ MAX_RESULTS + 99)
  ∧ (∃ (w : World) recs,
       europe_pmc_pages_within w epmc_page_size
       ∧ fst (search_europe_pmc w initial) = Ok tt
       ∧ results (snd (search_europe_pmc w initial)) = recs
       ∧ Z.of_nat (length recs) = MAX_RESULTS + 99).
Proof.
  split; [|split; [|split]].
  - intros w s Hw. unfold search_arxiv.
    destruct (arxiv_loop_inv w MAX_RESULTS (Z.to_nat MAX_RESULTS) 0 0 s)
      as (n & recs & o & Heq & _ & _ & _ & Hbound); [lia|].
    exists recs. rewrite Heq. split; [reflexivity|].
    assert (Hsize : 0 ≤ arxiv_batch_size) by (unfold arxiv_batch_size; lia).
    specialize (Hbound arxiv_batch_size Hsize Hw). clear Heq Hw.
    unfold arxiv_batch_size, MAX_RESULTS in Hbound |- *. lia.
  - destruct (search_arxiv_short_first_page initial) as (recs & Heq & Hlen).
    exists arxiv_short_first_page, recs. rewrite Heq. cbn [fst snd].
    split; [|split; [reflexivity|split; [reflexivity|exact Hlen]]].
    apply arxiv_short_first_page_within.
  - intros w s Hw. unfold search_europe_pmc.
    destruct (europe_pmc_loop_inv w MAX_RESULTS (Z.to_nat MAX_RESULTS) 0 1 s)
      as (n & out & o & Heq & _ & _ & _ & Hbound); [lia|].
    eexists. rewrite Heq. split; [reflexivity|].
    assert (Hsize : 0 ≤ epmc_page_size) by (unfold epmc_page_size; lia).
    specialize (Hbound epmc_page_size Hsize Hw). clear Heq Hw.
    unfold epmc_page_size, MAX_RESULTS in Hbound |- *. lia.
  - destruct (search_europe_pmc_short_first_page initial) as (recs & Heq & Hlen).
    exists europe_pmc_short_first_page, recs. rewrite Heq. cbn [fst snd].
    split; [|split; [reflexivity|split; [reflexivity|exact Hlen]]].
    apply europe_pmc_short_first_page_within.
Qed.

(** ** Status handling and the CrossRef request *)

Lemma search_crossref_eq w s :
  search_crossref w s =
    let r := crossref_get w QUERY 50 in
    let s1 := add_sent s [CrossrefGet QUERY 50] in
    if decide (status_code r ≠ 200) then
      (Ok tt, add_stdout s1 [crossref_diagnostic (status_code r)])
    else
      match body r with
      | None => (Raise JSONDecodeError, s1)
      | Some data =>
          (snd (collect crossref_record (crossref_items data)),
           add_results s1 (fst (collect crossref_record (crossref_items data))))
      end.
Proof.
  unfold search_crossref. rewrite send_bind. cbn zeta.
  change crossref_rows with 50.
  destruct (decide _); [reflexivity|].
  destruct (body _) as [data|]; [|reflexivity].
  apply for_each_collect.
Qed.



(** C9.  The CrossRef adapter sends one request, with [rows] 50, whatever
    the provider answers and whatever [MAX_RESULTS] is; an author's name
    is the given and family names that are present, joined by a space, and
    a record's authors are these names joined. *)
Theorem crossref_single_page :
  (∀ (w : World) (s : State),
     ∃ recs out,
       snd (search_crossref w s) =
         add_stdout (add_results (add_sent s [CrossrefGet QUERY 50]) recs) out)
  ∧ (∀ a : CrossrefAuthor,
       crossref_author_name a =
         match given a, family a with
         | Some g, Some f => g +:+ " " +:+ f
         | Some g, None => g
         | None, Some f => f
         | None, None => ""
         end)
  ∧ (∀ (item : CrossrefItem) (r : Rec),
       crossref_record item = inr r →
       Authors r =
         PyStr.join "; " (crossref_author_name <$> get (cr_author item) [])).
Proof.
  split; [|split].
  - intros w s. rewrite search_crossref_eq. cbn zeta.
    destruct (decide _).
    + exists [], [crossref_diagnostic (status_code (crossref_get w QUERY 50))].
      cbn [snd]. by rewrite add_results_nil.
    + destruct (body _) as [data|].
      * exists (fst (collect crossref_record (crossref_items data))), [].
        cbn [snd]. unfold add_stdout. simpl. by rewrite app_nil_r.
      * exists [], []. cbn [snd]. rewrite add_results_nil.
        unfold add_stdout. simpl. rewrite app_nil_r. reflexivity.
  - intros [[g|] [f|]]; reflexivity.
  - intros item r. unfold crossref_record.
    destruct (index0 (get (cr_title item) [""])) as [e|title]; [done|].
    cbn [ebind].
    destruct (index0 (crossref_date_parts item)) as [e|first]; [done|].
    cbn [ebind].
    destruct (index0 first) as [e|year]; [done|].
    cbn [ebind]. by intros [= <-].
Qed.

(** ** Field values of the records *)

(** C4, where the code departs from it.  The arXiv adapter stores the
    [.text] of the summary element as the abstract: for an entry with an
    empty summary element the record's [Abstract] is [None], not the
    empty text. *)
Theorem arxiv_empty_summary_gives_null :
  arxiv_record entry_with_empty_summary =
    inr {| Source := "arXiv";
           Title := "Digital Twins in Medicine";
           Authors := "A. Author";
           Year := "2022";
           Abstract := None;
           DOI := "";
           URL := Some "http://arxiv.org/abs/2203.00001v1" |}
  ∧ fst (search_arxiv arxiv_empty_summary initial) = Ok tt
  ∧ Abstract <$> results (snd (search_arxiv arxiv_empty_summary initial)) = [None].
Proof. repeat split; vm_compute; reflexivity. Qed.

(** C5, where the code departs from it.  The CrossRef adapter turns the
    default [[[None]]] of a missing date into text: for an item without
    [issued] the record's [Year] is the four letters None, neither a year
    nor the empty text. *)
Theorem crossref_missing_year_gives_None_text :
  crossref_record item_without_issued =
    inr {| Source := "CrossRef";
           Title := "Surrogate models";
           Authors := "Ada Writer";
           Year := "None";
           Abstract := Some "";
           DOI := "10.1000/sm";
           URL := Some "https://doi.org/10.1000/sm" |}.
Proof. reflexivity. Qed.

(** ** The exported file *)

Lemma count_char_app c s t :
  count_char c (s +:+ t) = (count_char c s + count_char c t)%nat.
Proof. induction s as [|d s IH]; simpl; [done|]. rewrite IH. lia. Qed.

Lemma count_LF_escape s :
  count_char Csv.LF (Csv.escape s) = count_char Csv.LF s.
Proof.
  induction s as [|c s IH]; simpl; [done|].
  destruct (Ascii.eqb_spec c Csv.quotechar) as [->|Hc]; simpl; by rewrite IH.
Qed.

Lemma count_LF_field s :
  count_char Csv.LF (Csv.field s) = count_char Csv.LF s.
Proof.
  unfold Csv.field. destruct (Csv.needs_quotes s); [|done].
  cbn [count_char]. rewrite count_char_app, count_LF_escape. simpl. lia.
Qed.

Lemma count_LF_join values :
  count_char Csv.LF
    (PyStr.join (String Csv.delimiter EmptyString) (Csv.field <$> values))
  = sum_list (count_char Csv.LF <$> values).
Proof.
  induction values as [|v values IH]; [done|].
  destruct values as [|v' values].
  - simpl. rewrite count_LF_field. lia.
  - change (count_char Csv.LF
              (Csv.field v +:+ String Csv.delimiter EmptyString
               +:+ PyStr.join (String Csv.delimiter EmptyString)
                     (Csv.field <$> v' :: values))
            = (count_char Csv.LF v + sum_list (count_char Csv.LF <$> v' :: values))%nat).
    rewrite !count_char_app, IH, count_LF_field. simpl. lia.
Qed.

Lemma count_LF_row values :
  count_char Csv.LF (Csv.row values)
  = S (sum_list (count_char Csv.LF <$> values)).
Proof.
  unfold Csv.row. rewrite count_char_app.
  change (map Csv.field values) with (Csv.field <$> values).
  rewrite count_LF_join. simpl. lia.
Qed.

Lemma line_count_rows rs :
  line_count (fold_right String.append "" ((λ r, Csv.row (row_values r)) <$> rs))
  = (length rs + sum_list (embedded_line_feeds <$> rs))%nat.
Proof.
  unfold line_count. induction rs as [|r rs IH]; [done|].
  cbn [fmap list_fmap fold_right length sum_list sum_list_with].
  rewrite count_char_app, IH, count_LF_row. unfold embedded_line_feeds, id. lia.
Qed.

Lemma sum_list_zero (rs : list Rec) :
  (∀ r, r ∈ rs → embedded_line_feeds r = O) →
  sum_list (embedded_line_feeds <$> rs) = O.
Proof.
  induction rs as [|r rs IH]; intros Hnone; [done|].
  rewrite fmap_cons. change (sum_list (?x :: ?l)) with (x + sum_list l)%nat.
  rewrite (Hnone r) by left.
  rewrite IH; [done|]. intros r' Hr'. apply Hnone. by right.
Qed.

(** C8, as the code has it.  The exporter writes the header row
    Source,Title,Authors,Year,Abstract,DOI,URL and then one row per record,
    in order, each closed by CR LF and holding the record's seven values:
    one more row than there are records.  A line feed inside a field stays
    in the file, so the file has one line per row plus one per such line
    feed, and exactly one line per row when no field has a line feed.  The
    Authors value is the text the adapter built by joining the names
    with a semicolon and a space. *)
Theorem csv_export_rows :
  (∀ unique_results : list Rec,
     length (csv_rows unique_results) = S (length unique_results)
     ∧ csv_rows unique_results !! O =
         Some ("Source,Title,Authors,Year,Abstract,DOI,URL" +:+ Csv.lineterminator)
     ∧ (∀ i r, unique_results !! i = Some r →
          csv_rows unique_results !! S i =
            Some (Csv.row [Source r; Title r; Authors r; Year r;
                           Csv.value (Abstract r); DOI r; Csv.value (URL r)]))
     ∧ line_count (csv_file unique_results) =
         (S (length unique_results)
          + sum_list (embedded_line_feeds <$> unique_results))%nat
     ∧ ((∀ r, r ∈ unique_results → embedded_line_feeds r = O) →
        line_count (csv_file unique_results) = S (length unique_results)))
  ∧ (∀ rec, Authors (pubmed_record rec) = PyStr.join "; " (get (AU rec) []))
  ∧ (∀ entry r, arxiv_record entry = inr r →
       ∃ names parts,
         author_names (atom_author entry) = inr names
         ∧ join_values names = inr parts
         ∧ Authors r = PyStr.join "; " parts)
  ∧ (∀ item r, crossref_record item = inr r →
       Authors r = PyStr.join "; " (crossref_author_name <$> get (cr_author item) []))
  ∧ (∀ hit, Authors (epmc_record hit) =
       PyStr.join "; " ((λ a, get (fullName a) "") <$> epmc_authors hit)).
Proof.
  split; [|split; [done|split; [|split; [|done]]]].
  - intros rs.
    assert (Hlines : line_count (csv_file rs)
                     = (S (length rs) + sum_list (embedded_line_feeds <$> rs))%nat).
    { unfold csv_file, csv_rows. cbn [fold_right]. unfold line_count.
      rewrite count_char_app. fold (line_count
        (fold_right String.append "" (map (λ r, Csv.row (row_values r)) rs))).
      change (map (λ r, Csv.row (row_values r)) rs)
        with ((λ r, Csv.row (row_values r)) <$> rs).
      rewrite line_count_rows.
      change (count_char Csv.LF (Csv.row fieldnames)) with 1%nat. lia. }
    split; [unfold csv_rows; simpl; by rewrite length_map|].
    split; [reflexivity|].
    split; [|split; [exact Hlines|]].
    + intros i r Hr.
      change (csv_rows rs !! S i)
        with (((λ r, Csv.row (row_values r)) <$> rs) !! i).
      rewrite list_lookup_fmap, Hr. reflexivity.
    + intros Hnone. rewrite Hlines.
      rewrite sum_list_zero; [lia|done].
  - intros entry r. unfold arxiv_record.
    destruct (find_text (atom_title entry)) as [e|t]; [done|]. cbn [ebind].
    destruct (as_str t) as [e|title]; [done|]. cbn [ebind].
    destruct (author_names (atom_author entry)) as [e|names]; [done|]. cbn [ebind].
    destruct (join_values names) as [e|parts] eqn:Hjoin; [done|]. cbn [ebind].
    destruct (find_text (atom_published entry)) as [e|pb]; [done|]. cbn [ebind].
    destruct (as_str pb) as [e|published]; [done|]. cbn [ebind].
    destruct (find_text (atom_summary entry)) as [e|summary]; [done|]. cbn [ebind].
    destruct (find_text (atom_id entry)) as [e|id]; [done|]. cbn [ebind].
    intros [= <-]. by exists names, parts.
  - intros item r. unfold crossref_record.
    destruct (index0 (get (cr_title item) [""])) as [e|title]; [done|].
    cbn [ebind].
    destruct (index0 (crossref_date_parts item)) as [e|first]; [done|].
    cbn [ebind].
    destruct (index0 first) as [e|year]; [done|].
    cbn [ebind]. by intros [= <-].
Qed.

(** The claim of C8 that the file has one line per record plus one fails
    for a record with a line feed in a field: the file written for the one
    record [two_line_abstract] has three lines. *)
Lemma csv_embedded_line_feed :
  length [two_line_abstract] = 1%nat
  ∧ line_count (csv_file [two_line_abstract]) = 3%nat.
Proof. split; reflexivity. Qed.

(** ** The scenarios of the specification *)

(** Two records titled Digital Twins in Medicine, in different letter
    case, both of 2022: one survives, the first. *)
Example dedup_ignores_case :
  deduplicate
    [mkRecord "PubMed" "Digital Twins in Medicine" "" "2022" (Some "") "" (Some "");
     mkRecord "CrossRef" "digital twins in medicine" "" "2022" (Some "") "" (Some "")]
  = [mkRecord "PubMed" "Digital Twins in Medicine" "" "2022" (Some "") "" (Some "")].
Proof. vm_compute. reflexivity. Qed.

(** Three PubMed records, two arXiv entries and a CrossRef duplicate of
    the first: six records are gathered, five are kept, and the file has
    six lines. *)
Example end_to_end_scenario :
  fst (run_searches scenario initial) = Ok tt
  ∧ Source <$> results (snd (run_searches scenario initial))
    = ["PubMed"; "PubMed"; "PubMed"; "arXiv"; "arXiv"; "CrossRef"]
  ∧ Year <$> results (snd (run_searches scenario initial))
    = ["2022"; "2021"; "2020"; "2023"; "2019"; "2022"]
  ∧ Source <$> deduplicate (results (snd (run_searches scenario initial)))
    = ["PubMed"; "PubMed"; "PubMed"; "arXiv"; "arXiv"]
  ∧ line_count (csv_file (deduplicate (results (snd (run_searches scenario initial)))))
    = 6%nat.
Proof. repeat split; vm_compute; reflexivity. Qed.


(** ** The statements at sample inputs *)




(** C8 at one record without a line feed in its fields. *)
Lemma csv_export_rows_sample :
  embedded_line_feeds sample_record = O
  ∧ line_count (csv_file [sample_record]) = 2%nat.
Proof.
  split; [reflexivity|].
  apply (proj1 csv_export_rows [sample_record]).
  intros r Hr. apply list_elem_of_singleton in Hr. rewrite Hr. reflexivity.
Defined.

(** C10 at the provider whose first arXiv page has 199 entries. *)
Lemma paginated_overshoot_sample :
  ∃ recs,
    results (snd (search_arxiv arxiv_short_first_page initial)) = results initial ++ recs
    ∧ Z.of_nat (length recs) ≤ MAX_RESULTS + 199.
Proof.
  exact (proj1 paginated_overshoot arxiv_short_first_page initial
           arxiv_short_first_page_within).
Defined.

(** The Europe PMC adapter on a first page of two hits and a second page
    answered with status 500: the two records are kept, the diagnostic is
    printed, and the adapter returns normally; before it, CrossRef's
    status 503 is reported and does not stop the run. *)
Example status_failures_reported :
  fst (run_searches crossref_and_europe_pmc_down initial) = Ok tt
  ∧ stdout (snd (run_searches crossref_and_europe_pmc_down initial))
    = ["[CrossRef] Failed request (status 503)";
       "[Europe PMC] Failed request (status 500)"]
  ∧ Source <$> results (snd (run_searches crossref_and_europe_pmc_down initial))
    = ["Europe PMC"; "Europe PMC"].
Proof. repeat split; vm_compute; reflexivity. Qed.

(** ** Checks of the added definitions *)

Example splitlines_samples :
  splitlines EmptyString = []
  ∧ splitlines ("a" +:+ String Csv.LF EmptyString) = ["a"]
  ∧ splitlines ("a" +:+ String Csv.LF (String Csv.LF "b")) = ["a"; ""; "b"]
  ∧ splitlines ("a" +:+ String Csv.CR (String Csv.LF "b")) = ["a"; "b"]
  ∧ splitlines (String Csv.LF EmptyString) = [""]
  ∧ Counter ["PubMed"; "arXiv"; "PubMed"; "CrossRef"; "arXiv"; "PubMed"]
    = [("PubMed", 3); ("arXiv", 2); ("CrossRef", 1)].
Proof. repeat split; reflexivity. Qed.

(** ** More on the duplicate filter *)

Section DedupMore.
Context {A K : Type} `{!EqDecision K, !Countable K}.
Variable key : A → K.

Lemma dedup_from_all_seen seen rs :
  (∀ r, r ∈ rs → key r ∈ seen) → dedup_from key seen rs = [].
Proof.
  induction rs as [|r rs IH]; intros Hseen; [done|].
  rewrite dedup_from_cons, decide_True by (apply Hseen; left).
  apply IH. intros x Hx. apply Hseen. by right.
Qed.

Lemma dedup_by_keys l :
  (list_to_set (key <$> dedup_by key l) : gset K) = list_to_set (key <$> l).
Proof.
  apply set_eq. intros k. rewrite !elem_of_list_to_set. split.
  - intros (r & -> & Hr)%list_elem_of_fmap. apply list_elem_of_fmap_2.
    eapply elem_of_sublist; [exact Hr|]. apply dedup_from_sublist.
  - intros (r & -> & Hr)%list_elem_of_fmap.
    rewrite dedup_by_from. apply dedup_from_covers; [done|].
    apply not_elem_of_empty.
Qed.

Lemma dedup_by_length l :
  length (dedup_by key l) = size (list_to_set (key <$> l) : gset K).
Proof.
  rewrite <- dedup_by_keys, size_list_to_set, length_fmap; [done|].
  rewrite dedup_by_from. apply dedup_from_NoDup.
Qed.

Lemma dedup_by_app l1 l2 :
  dedup_by key (l1 ++ l2) =
    dedup_by key l1 ++ dedup_from key (list_to_set (key <$> l1)) l2.
Proof.
  rewrite !dedup_by_from, dedup_from_app. by rewrite (left_id_L ∅ (∪)).
Qed.
End DedupMore.

(** The filter keeps as many records as the input has different keys. *)
Theorem deduplicate_length_is_key_count (results : list Rec) :
  length (deduplicate results)
  = size (list_to_set (dedup_key <$> results) : gset (string * string)).
Proof. apply dedup_by_length. Qed.

(** What is kept of the records gathered first does not depend on what is
    gathered later: filtering [earlier ++ later] gives the filtered
    [earlier] followed by records of [later], in order, whose keys do not
    occur in [earlier]; when every key of [later] occurs in [earlier],
    nothing is added. *)
Theorem deduplicate_earlier_sources_win (earlier later : list Rec) :
  ∃ added,
    deduplicate (earlier ++ later) = deduplicate earlier ++ added
    ∧ sublist added later
    ∧ (∀ r, r ∈ added → dedup_key r ∉ dedup_key <$> earlier)
    ∧ ((∀ r, r ∈ later → dedup_key r ∈ dedup_key <$> earlier) → added = []).
Proof.
  exists (dedup_from dedup_key (list_to_set (dedup_key <$> earlier)) later).
  split; [apply dedup_by_app|]. split; [apply dedup_from_sublist|]. split.
  - intros r Hr%dedup_from_fresh. by rewrite elem_of_list_to_set in Hr.
  - intros Hall. apply dedup_from_all_seen. intros r Hr.
    apply elem_of_list_to_set. by apply Hall.
Qed.

(** ** Counts per source *)

Lemma counter_get_add elem counts k :
  counter_get (counter_add elem counts) k
  = counter_get counts k + (if decide (k = elem) then 1 else 0).
Proof.
  induction counts as [|[k' n] rest IH]; simpl.
  - destruct (decide (elem = k)), (decide (k = elem)); congruence || lia.
  - destruct (decide (k' = elem)) as [->|Hne]; simpl.
    + destruct (decide (elem = k)), (decide (k = elem)); congruence || lia.
    + destruct (decide (k' = k)) as [->|Hk]; [|exact IH].
      rewrite decide_False by done. lia.
Qed.

Lemma counter_keys_add elem counts :
  (counter_add elem counts).*1
  = if decide (elem ∈ counts.*1) then counts.*1 else counts.*1 ++ [elem].
Proof.
  induction counts as [|[k n] rest IH].
  - rewrite decide_False; [done|]. by intros ?%elem_of_nil.
  - cbn [counter_add]. rewrite fmap_cons. cbn [fst].
    destruct (decide (k = elem)) as [->|Hne].
    + rewrite decide_True; [done|]. left.
    + rewrite fmap_cons, IH. cbn [fst].
      destruct (decide (elem ∈ rest.*1)) as [Hin|Hnin].
      * rewrite decide_True; [done|]. by right.
      * rewrite decide_False; [done|].
        intros [Heq|Hin]%elem_of_cons; [by apply Hne|by apply Hnin].
Qed.

Lemma counter_sum_add elem counts :
  foldr Z.add 0 (counter_add elem counts).*2 = foldr Z.add 0 counts.*2 + 1.
Proof.
  induction counts as [|[k n] rest IH]; [done|].
  cbn [counter_add]. destruct (decide (k = elem)).
  - rewrite !fmap_cons. cbn [foldr snd]. lia.
  - rewrite !fmap_cons. cbn [foldr snd]. rewrite IH. lia.
Qed.

Lemma counter_positive_add elem counts :
  Forall (λ kn, 1 ≤ kn.2) counts → Forall (λ kn, 1 ≤ kn.2) (counter_add elem counts).
Proof.
  induction 1 as [|[k n] rest Hn Hrest IH]; simpl.
  - repeat constructor. simpl. lia.
  - destruct (decide (k = elem)); constructor; simpl in *; try done; lia.
Qed.

(** The counting loop from any dictionary. *)
Lemma counter_fold items :
  ∀ counts,
    let final := fold_left (λ counts elem, counter_add elem counts) items counts in
    (∀ k, counter_get final k
          = counter_get counts k + Z.of_nat (length (filter (λ x, x = k) items)))
    ∧ final.*1 = counts.*1 ++ dedup_from id (list_to_set counts.*1) items
    ∧ foldr Z.add 0 final.*2 = foldr Z.add 0 counts.*2 + Z.of_nat (length items)
    ∧ (Forall (λ kn, 1 ≤ kn.2) counts → Forall (λ kn, 1 ≤ kn.2) final).
Proof.
  induction items as [|x items IH]; intros counts; cbn zeta.
  - simpl. rewrite dedup_from_nil, app_nil_r.
    repeat split; try done; intros; lia.
  - cbn [fold_left]. destruct (IH (counter_add x counts)) as (Hget & Hkeys & Hsum & Hpos).
    split; [|split; [|split]].
    + intros k. rewrite Hget, counter_get_add, filter_cons.
      destruct (decide (k = x)) as [->|Hne].
      * rewrite decide_True by done. simpl. lia.
      * rewrite decide_False by done. lia.
    + rewrite Hkeys, counter_keys_add, dedup_from_cons. unfold id at 2 3.
      destruct (decide (x ∈ counts.*1)) as [Hin|Hnin].
      * rewrite decide_True by (by apply elem_of_list_to_set). done.
      * rewrite decide_False by (by rewrite elem_of_list_to_set).
        rewrite <- app_assoc. cbn [app].
        rewrite list_to_set_app_L. cbn [list_to_set foldr].
        rewrite (right_id_L ∅ (∪)).
        by rewrite (comm_L (∪) (list_to_set counts.*1) {[x]}).
    + rewrite Hsum, counter_sum_add. cbn [length]. lia.
    + intros Hc. by apply Hpos, counter_positive_add.
Qed.

Lemma filter_source_length (rs : list Rec) src :
  length (filter (λ x, x = src) (Source <$> rs))
  = length (filter (λ r, Source r = src) rs).
Proof.
  induction rs as [|r rs IH]; [done|].
  rewrite fmap_cons, !filter_cons.
  destruct (decide (Source r = src)); simpl; by rewrite IH.
Qed.

Lemma source_counts_spec (rs : list Rec) :
  foldr Z.add 0 (Counter (map Source rs)).*2 = Z.of_nat (length rs)
  ∧ (Counter (map Source rs)).*1 = dedup_by id (Source <$> rs)
  ∧ NoDup (Counter (map Source rs)).*1
  ∧ (∀ src, counter_get (Counter (map Source rs)) src
            = Z.of_nat (length (filter (λ r, Source r = src) rs)))
  ∧ Forall (λ kn, 1 ≤ kn.2) (Counter (map Source rs)).
Proof.
  unfold Counter. change (map Source rs) with (Source <$> rs).
  destruct (counter_fold (Source <$> rs) []) as (Hget & Hkeys & Hsum & Hpos).
  cbn zeta in *. split; [|split; [|split; [|split]]].
  - rewrite Hsum, length_fmap. simpl. lia.
  - rewrite Hkeys. reflexivity.
  - rewrite Hkeys. cbn [app fmap list_fmap list_to_set].
    pose proof (dedup_from_NoDup (@id string) ∅ (Source <$> rs)) as Hnd.
    by rewrite list_fmap_id in Hnd.
  - intros src. rewrite Hget, filter_source_length. simpl. lia.
  - by apply Hpos.
Qed.

Lemma dedup_by_id_elem_of (l : list string) src : src ∈ dedup_by id l ↔ src ∈ l.
Proof.
  split.
  - intros Hd. eapply elem_of_sublist; [exact Hd|]. apply dedup_from_sublist.
  - intros Hl.
    pose proof (dedup_from_covers (@id string) ∅ l src Hl (not_elem_of_empty _)) as Hc.
    by rewrite list_fmap_id in Hc.
Qed.

(** The counts per source of any list of records: the counts add up to
    the number of records; the sources come once each, in the order in
    which they first occur; the count of a source is the number of its
    records (zero for a source without any); and every listed count is at
    least one. *)
Theorem source_counts_correct (rs : list Rec) :
  foldr Z.add 0 (Counter (map Source rs)).*2 = Z.of_nat (length rs)
  ∧ (Counter (map Source rs)).*1 = dedup_by id (Source <$> rs)
  ∧ NoDup (Counter (map Source rs)).*1
  ∧ (∀ src, counter_get (Counter (map Source rs)) src
            = Z.of_nat (length (filter (λ r, Source r = src) rs)))
  ∧ Forall (λ kn, 1 ≤ kn.2) (Counter (map Source rs)).
Proof. apply source_counts_spec. Qed.

Lemma sublist_filter_length {A} (P : A → Prop) `{!∀ x, Decision (P x)} l1 l2 :
  sublist l1 l2 → (length (filter P l1) ≤ length (filter P l2))%nat.
Proof.
  induction 1 as [|x l1 l2 _ IH|x l1 l2 _ IH]; [done| |].
  - rewrite !filter_cons. destruct (decide (P x)); simpl; lia.
  - rewrite filter_cons. destruct (decide (P x)); simpl; lia.
Qed.

(** Filtering cannot raise the count of a source, and a source listed
    after filtering was listed before. *)
Theorem source_counts_shrink (rs : list Rec) :
  (∀ src, counter_get (Counter (map Source (deduplicate rs))) src
          ≤ counter_get (Counter (map Source rs)) src)
  ∧ (∀ src, src ∈ (Counter (map Source (deduplicate rs))).*1 →
            src ∈ (Counter (map Source rs)).*1).
Proof.
  assert (Hsub : sublist (deduplicate rs) rs) by apply dedup_from_sublist.
  destruct (source_counts_spec rs) as (_ & Hkeys & _ & Hget & _).
  destruct (source_counts_spec (deduplicate rs)) as (_ & Hkeys' & _ & Hget' & _).
  split.
  - intros src. rewrite Hget, Hget'.
    apply inj_le. by apply sublist_filter_length.
  - intros src. rewrite Hkeys, Hkeys', !dedup_by_id_elem_of.
    intros Hin. eapply elem_of_sublist; [exact Hin|]. by apply fmap_sublist.
Qed.

(** ** The ignore file *)

Lemma splitlines_from_LF line s :
  splitlines_from line (String Csv.LF s) = line :: splitlines_from EmptyString s.
Proof. reflexivity. Qed.

Lemma universal_newlines_cons c s :
  universal_newlines (String c s) =
    if Ascii.eqb c Csv.CR then
      match s with
      | EmptyString => String Csv.LF EmptyString
      | String d s' =>
          if Ascii.eqb d Csv.LF then String Csv.LF (universal_newlines s')
          else String Csv.LF (universal_newlines s)
      end
    else String c (universal_newlines s).
Proof. reflexivity. Qed.

Lemma splitlines_from_other line c s :
  Ascii.eqb c Csv.CR = false →
  splitlines_from line (String c s) =
    if is_line_boundary c then line :: splitlines_from EmptyString s
    else splitlines_from (line +:+ String c EmptyString) s.
Proof. intros Hc. cbn [splitlines_from]. by rewrite Hc. Qed.

(** After the entry is appended to any text, the pattern is one of the
    lines read back, whatever the text ends with. *)
Lemma oos_line_after_append n :
  ∀ content line,
    (String.length content ≤ n)%nat →
    "oos/" ∈ splitlines_from line (universal_newlines (content +:+ oos_entry)).
Proof.
  assert (Hbase : ∀ line, "oos/" ∈ splitlines_from line (universal_newlines oos_entry)).
  { intros line. change (universal_newlines oos_entry) with oos_entry.
    unfold oos_entry. rewrite splitlines_from_LF. right. left. }
  induction n as [|n IH]; intros content line Hlen.
  - destruct content; [apply Hbase|simpl in Hlen; lia].
  - destruct content as [|x c1]; [apply Hbase|].
    change (String x c1 +:+ oos_entry) with (String x (c1 +:+ oos_entry)).
    rewrite universal_newlines_cons.
    destruct (Ascii.eqb x Csv.CR) eqn:Hx.
    + destruct c1 as [|d c2].
      * change (EmptyString +:+ oos_entry) with oos_entry. unfold oos_entry.
        rewrite Ascii.eqb_refl, splitlines_from_LF. right.
        change (splitlines_from EmptyString
                  (universal_newlines ("oos/" +:+ String Csv.LF EmptyString)))
          with ["oos/"].
        left.
      * change (String d c2 +:+ oos_entry) with (String d (c2 +:+ oos_entry)).
        cbn beta iota. destruct (Ascii.eqb d Csv.LF) eqn:Hd.
        -- rewrite splitlines_from_LF. right. apply IH. simpl in Hlen. lia.
        -- rewrite splitlines_from_LF. right.
           apply (IH (String d c2)). simpl in *. lia.
    + rewrite splitlines_from_other by done.
      destruct (is_line_boundary x).
      * right. apply IH. simpl in Hlen. lia.
      * apply IH. simpl in Hlen. lia.
Qed.

(** The step on the ignore file: afterwards the file exists and the
    pattern is one of its lines; a second run changes nothing; a file that
    lists the pattern is left as it is; and what the file held stays at
    its start, followed by nothing or by the entry. *)
Theorem update_gitignore_once (file : option string) :
  (∃ content,
     update_gitignore file = Some content
     ∧ "oos/" ∈ splitlines (universal_newlines content))
  ∧ update_gitignore (update_gitignore file) = update_gitignore file
  ∧ (∀ content,
       file = Some content →
       ("oos/" ∈ splitlines (universal_newlines content) →
        update_gitignore file = file)
       ∧ ("oos/" ∉ splitlines (universal_newlines content) →
          update_gitignore file = Some (content +:+ oos_entry)))
  ∧ (file = None → update_gitignore file = Some oos_entry).
Proof.
  assert (Hafter : ∃ content,
             update_gitignore file = Some content
             ∧ "oos/" ∈ splitlines (universal_newlines content)).
  { unfold update_gitignore.
    destruct file as [content|]; cbn zeta.
    - destruct (decide ("oos/" ∉ splitlines (universal_newlines content)))
        as [Hnot|Hin].
      + eexists. split; [reflexivity|]. cbn [get].
        by apply (oos_line_after_append (String.length content)).
      + exists content. split; [done|]. by apply dec_stable.
    - rewrite decide_True by (by intros ?%elem_of_nil).
      eexists. split; [reflexivity|].
      by apply (oos_line_after_append O EmptyString). }
  split; [exact Hafter|]. split; [|split].
  - destruct Hafter as (content & -> & Hin).
    unfold update_gitignore. cbn zeta. by rewrite decide_False by (by intros []).
  - intros content ->. unfold update_gitignore. cbn zeta. split.
    + intros Hin. by rewrite decide_False by (by intros []).
    + intros Hnot. by rewrite decide_True.
  - intros ->. reflexivity.
Qed.

(** ** Trimming and splitting *)

Lemma rstrip_cons c s :
  PyStr.rstrip (String c s) =
    match PyStr.rstrip s with
    | EmptyString => if PyStr.is_space c then EmptyString else String c EmptyString
    | String d t => String c (String d t)
    end.
Proof. reflexivity. Qed.

Lemma rstrip_idem s : PyStr.rstrip (PyStr.rstrip s) = PyStr.rstrip s.
Proof.
  induction s as [|c s IH]; [done|].
  rewrite rstrip_cons. destruct (PyStr.rstrip s) as [|d r] eqn:Hr.
  - destruct (PyStr.is_space c) eqn:Hc; [done|].
    rewrite rstrip_cons. cbn [PyStr.rstrip]. by rewrite Hc.
  - rewrite rstrip_cons, IH. done.
Qed.

Lemma rstrip_head c s :
  PyStr.is_space c = false → ∃ t, PyStr.rstrip (String c s) = String c t.
Proof.
  intros Hc. rewrite rstrip_cons. destruct (PyStr.rstrip s); rewrite ?Hc; eauto.
Qed.

Lemma lstrip_head s :
  PyStr.lstrip s = EmptyString
  ∨ ∃ c t, PyStr.lstrip s = String c t ∧ PyStr.is_space c = false.
Proof.
  induction s as [|c s IH]; [by left|].
  cbn [PyStr.lstrip]. destruct (PyStr.is_space c) eqn:Hc; [done|].
  right. by exists c, s.
Qed.

Lemma rstrip_last s :
  PyStr.rstrip s = EmptyString
  ∨ ∃ t c, PyStr.rstrip s = t +:+ String c EmptyString ∧ PyStr.is_space c = false.
Proof.
  induction s as [|c s IH]; [by left|].
  rewrite rstrip_cons. destruct IH as [->|(t & d & -> & Hd)].
  - destruct (PyStr.is_space c) eqn:Hc; [by left|].
    right. by exists EmptyString, c.
  - right. destruct (t +:+ String d EmptyString) as [|x y] eqn:Ht.
    + by destruct t.
    + exists (String c t), d. by rewrite <- Ht.
Qed.

Lemma strip_spec s :
  PyStr.strip (PyStr.strip s) = PyStr.strip s
  ∧ PyStr.lstrip (PyStr.strip s) = PyStr.strip s
  ∧ PyStr.rstrip (PyStr.strip s) = PyStr.strip s
  ∧ (PyStr.strip s = EmptyString
     ∨ ∃ c t, PyStr.strip s = String c t ∧ PyStr.is_space c = false)
  ∧ (PyStr.strip s = EmptyString
     ∨ ∃ t c, PyStr.strip s = t +:+ String c EmptyString ∧ PyStr.is_space c = false).
Proof.
  assert (Hl : PyStr.lstrip (PyStr.strip s) = PyStr.strip s).
  { unfold PyStr.strip. destruct (lstrip_head s) as [->|(c & t & -> & Hc)]; [done|].
    destruct (rstrip_head c t Hc) as (u & ->). cbn [PyStr.lstrip]. by rewrite Hc. }
  assert (Hr : PyStr.rstrip (PyStr.strip s) = PyStr.strip s)
    by apply rstrip_idem.
  split; [|split; [done|split; [done|split]]].
  - unfold PyStr.strip at 1. by rewrite Hl, Hr.
  - unfold PyStr.strip. destruct (lstrip_head s) as [->|(c & t & -> & Hc)]; [by left|].
    destruct (rstrip_head c t Hc) as (u & ->). right. by exists c, u.
  - apply rstrip_last.
Qed.

Lemma split_head_spec sep s :
  PyStr.contains sep (PyStr.split_head sep s) = false
  ∧ (s = PyStr.split_head sep s
     ∨ ∃ rest, s = PyStr.split_head sep s +:+ String sep rest).
Proof.
  induction s as [|c s [IH1 IH2]]; [by split; [|left]|].
  cbn [PyStr.split_head]. destruct (Ascii.eqb_spec c sep) as [->|Hne].
  - split; [done|]. right. by exists s.
  - split.
    + cbn [PyStr.contains]. rewrite IH1.
      destruct (Ascii.eqb_spec sep c); [congruence|done].
    + destruct IH2 as [Heq|(rest & Heq)].
      * left. by f_equal.
      * right. exists rest.
        change (String c s = String c (PyStr.split_head sep s +:+ String sep rest)).
        by f_equal.
Qed.

Lemma split_head_prefix sep year rest :
  PyStr.contains sep year = false →
  PyStr.split_head sep year = year
  ∧ PyStr.split_head sep (year +:+ String sep rest) = year.
Proof.
  induction year as [|c year IH]; intros Hc.
  - split; [done|]. change (EmptyString +:+ String sep rest) with (String sep rest).
    cbn [PyStr.split_head]. by rewrite Ascii.eqb_refl.
  - cbn [PyStr.contains] in Hc. apply orb_false_iff in Hc as [Hsep Hyear].
    destruct (IH Hyear) as [IH1 IH2].
    change (String c year +:+ String sep rest)
      with (String c (year +:+ String sep rest)).
    cbn [PyStr.split_head].
    rewrite Ascii.eqb_sym in Hsep. rewrite Hsep. by rewrite IH1, IH2.
Qed.

Lemma lstrip_blank pad s : blank pad = true → PyStr.lstrip (pad +:+ s) = PyStr.lstrip s.
Proof.
  induction pad as [|c pad IH]; intros Hpad; [done|].
  cbn [blank] in Hpad. apply andb_prop in Hpad as [Hc Hpad].
  change (String c pad +:+ s) with (String c (pad +:+ s)).
  cbn [PyStr.lstrip]. rewrite Hc. by apply IH.
Qed.

Lemma lstrip_of_blank pad : blank pad = true → PyStr.lstrip pad = EmptyString.
Proof.
  induction pad as [|c pad IH]; intros Hpad; [done|].
  cbn [blank] in Hpad. apply andb_prop in Hpad as [Hc Hpad].
  cbn [PyStr.lstrip]. rewrite Hc. by apply IH.
Qed.

Lemma rstrip_blank pad : blank pad = true → PyStr.rstrip pad = EmptyString.
Proof.
  induction pad as [|c pad IH]; intros Hpad; [done|].
  cbn [blank] in Hpad. apply andb_prop in Hpad as [Hc Hpad].
  by rewrite rstrip_cons, IH, Hc.
Qed.

Lemma rstrip_app_blank s pad :
  blank pad = true → PyStr.rstrip (s +:+ pad) = PyStr.rstrip s.
Proof.
  intros Hpad. induction s as [|c s IH]; [by apply rstrip_blank|].
  change (String c s +:+ pad) with (String c (s +:+ pad)).
  by rewrite !rstrip_cons, IH.
Qed.

Lemma strip_app_blank s pad :
  blank pad = true → PyStr.strip (s +:+ pad) = PyStr.strip s.
Proof.
  intros Hpad. unfold PyStr.strip. induction s as [|c s IH].
  - change (EmptyString +:+ pad) with pad. by rewrite lstrip_of_blank.
  - change (String c s +:+ pad) with (String c (s +:+ pad)).
    cbn [PyStr.lstrip]. destruct (PyStr.is_space c); [exact IH|].
    by apply (rstrip_app_blank (String c s)).
Qed.

Lemma strip_trimmed s : trimmed (PyStr.strip s).
Proof.
  destruct (strip_spec s) as (_ & _ & _ & Hfirst & Hlast).
  unfold trimmed.
  destruct Hfirst as [->|Hfirst]; [by left|].
  destruct Hlast as [->|Hlast]; [by left|]. by right.
Qed.

(** Trimming: the result neither starts nor ends with white space,
    trimming it again changes nothing, and white space around a text
    does not change what trimming gives. *)
Theorem strip_trims :
  (∀ s, trimmed (PyStr.strip s) ∧ PyStr.strip (PyStr.strip s) = PyStr.strip s)
  ∧ (∀ before s after,
       blank before = true → blank after = true →
       PyStr.strip (before +:+ s +:+ after) = PyStr.strip s).
Proof.
  split.
  - intros s. split; [apply strip_trimmed|apply strip_spec].
  - intros before s after Hb Ha.
    transitivity (PyStr.strip (s +:+ after)); [|by apply strip_app_blank].
    unfold PyStr.strip. by rewrite lstrip_blank.
Qed.

(** Good record expressions: what the value is when none of the lookups
    raises. *)
Lemma arxiv_record_inr entry r :
  arxiv_record entry = inr r →
  ∃ title names parts published summary id,
    atom_title entry = Some (Some title)
    ∧ author_names (atom_author entry) = inr names
    ∧ join_values names = inr parts
    ∧ atom_published entry = Some (Some published)
    ∧ atom_summary entry = Some summary
    ∧ atom_id entry = Some id
    ∧ r = {| Source := "arXiv";
             Title := PyStr.strip title;
             Authors := PyStr.join "; " parts;
             Year := PyStr.split_head "-" published;
             Abstract := summary;
             DOI := "";
             URL := id |}.
Proof.
  unfold arxiv_record.
  destruct (atom_title entry) as [[title|]|]; [|done|done]. cbn [find_text as_str ebind].
  destruct (author_names (atom_author entry)) as [e|names]; [done|]. cbn [ebind].
  destruct (join_values names) as [e|parts] eqn:Hjoin; [done|]. cbn [ebind].
  destruct (atom_published entry) as [[published|]|]; [|done|done].
  cbn [find_text as_str ebind].
  destruct (atom_summary entry) as [summary|]; [|done]. cbn [find_text ebind].
  destruct (atom_id entry) as [id|]; [|done]. cbn [find_text ebind].
  intros [= <-]. by exists title, names, parts, published, summary, id.
Qed.

Lemma crossref_record_inr item r :
  crossref_record item = inr r →
  ∃ title first year,
    index0 (get (cr_title item) [""]) = inr title
    ∧ index0 (crossref_date_parts item) = inr first
    ∧ index0 first = inr year
    ∧ r = {| Source := "CrossRef";
             Title := PyStr.strip title;
             Authors := PyStr.join "; "
                          (map crossref_author_name (get (cr_author item) []));
             Year := str_value year;
             Abstract := Some "";
             DOI := get (cr_DOI item) "";
             URL := Some (get (cr_URL item) "") |}.
Proof.
  unfold crossref_record.
  destruct (index0 (get (cr_title item) [""])) as [e|title]; [done|].
  cbn [ebind].
  destruct (index0 (crossref_date_parts item)) as [e|first]; [done|].
  cbn [ebind].
  destruct (index0 first) as [e|year] eqn:Hyear; [done|].
  cbn [ebind]. intros [= <-]. by exists title, first, year.
Qed.

(** The titles of the records of all four adapters are trimmed. *)
Theorem titles_are_trimmed :
  (∀ rec, trimmed (Title (pubmed_record rec)))
  ∧ (∀ entry r, arxiv_record entry = inr r → trimmed (Title r))
  ∧ (∀ item r, crossref_record item = inr r → trimmed (Title r))
  ∧ (∀ hit, trimmed (Title (epmc_record hit))).
Proof.
  split; [|split; [|split]].
  - intros rec. apply strip_trimmed.
  - intros entry r (title & ? & ? & ? & ? & ? & _ & _ & _ & _ & _ & _ & ->)%arxiv_record_inr.
    apply strip_trimmed.
  - intros item r (title & ? & ? & _ & _ & _ & ->)%crossref_record_inr.
    apply strip_trimmed.
  - intros hit. apply strip_trimmed.
Qed.

(** ** What the adapters append and raise *)

Lemma collect_Forall {A} (f : A → exn + Rec) (P : Rec → Prop) xs :
  (∀ x r, f x = inr r → P r) → Forall P (fst (collect f xs)).
Proof.
  intros Hf. induction xs as [|x xs IH]; [constructor|].
  cbn [collect]. destruct (f x) as [e|r] eqn:Hx; [constructor|].
  destruct (collect f xs) as [rs o]. cbn [fst] in *.
  constructor; [by eapply Hf|done].
Qed.

Lemma collect_raise {A} (f : A → exn + Rec) xs e :
  snd (collect f xs) = Raise e → ∃ x, x ∈ xs ∧ f x = inl e.
Proof.
  induction xs as [|x xs IH]; [done|].
  cbn [collect]. destruct (f x) as [e'|r] eqn:Hx.
  - intros [= <-]. exists x. split; [left|done].
  - destruct (collect f xs) as [rs o]. cbn [snd] in *.
    intros (y & Hy & Hfy)%IH. exists y. split; [by right|done].
Qed.

Lemma author_names_inl authors e :
  author_names authors = inl e → e = AttributeError.
Proof.
  induction authors as [|[name|] authors IH]; cbn [author_names find_text ebind].
  - done.
  - destruct (author_names authors); [|done]. intros [= <-]. by apply IH.
  - by intros [= <-].
Qed.

Lemma join_values_inl items e : join_values items = inl e → e = TypeError.
Proof.
  induction items as [|[s|] items IH]; cbn [join_values ebind].
  - done.
  - destruct (join_values items); [|done]. intros [= <-]. by apply IH.
  - by intros [= <-].
Qed.

Lemma arxiv_record_inl entry e :
  arxiv_record entry = inl e → e = AttributeError ∨ e = TypeError.
Proof.
  unfold arxiv_record.
  destruct (atom_title entry) as [[title|]|]; cbn [find_text as_str ebind];
    [|intros [= <-]; by left..].
  destruct (author_names (atom_author entry)) as [e'|names] eqn:Hnames;
    cbn [ebind]; [intros [= <-]; left; by eapply author_names_inl|].
  destruct (join_values names) as [e'|parts] eqn:Hjoin;
    cbn [ebind]; [intros [= <-]; right; by eapply join_values_inl|].
  destruct (atom_published entry) as [[published|]|]; cbn [find_text as_str ebind];
    [|intros [= <-]; by left..].
  destruct (atom_summary entry) as [summary|]; cbn [find_text ebind];
    [|intros [= <-]; by left].
  destruct (atom_id entry) as [id|]; cbn [find_text ebind];
    [done|intros [= <-]; by left].
Qed.

Lemma crossref_record_inl item e : crossref_record item = inl e → e = IndexError.
Proof.
  assert (Hindex : ∀ A (xs : list A) e', index0 xs = inl e' → e' = IndexError).
  { intros A [|x xs] e'; cbn; [by intros [= <-]|done]. }
  unfold crossref_record.
  destruct (index0 (get (cr_title item) [""])) as [e'|title] eqn:Ht; cbn [ebind];
    [intros [= <-]; by eapply Hindex|].
  destruct (index0 (crossref_date_parts item)) as [e'|first] eqn:Hf; cbn [ebind];
    [intros [= <-]; by eapply Hindex|].
  destruct (index0 first) as [e'|year] eqn:Hy; cbn [ebind];
    [intros [= <-]; by eapply Hindex|done].
Qed.

Lemma search_pubmed_eq w s :
  search_pubmed w s =
    let s1 := add_sent s [ESearch "pubmed" QUERY MAX_RESULTS] in
    match esearch w QUERY MAX_RESULTS with
    | EntrezFail status => (Raise (HTTPError status), s1)
    | EntrezOk ids =>
        let s2 := add_sent s1 [EFetch "pubmed" (PyStr.join "," ids) "medline" "text"] in
        match efetch w (PyStr.join "," ids) with
        | EntrezFail status => (Raise (HTTPError status), s2)
        | EntrezOk records => (Ok tt, add_results s2 (pubmed_record <$> records))
        end
    end.
Proof.
  unfold search_pubmed, entrez. rewrite bind_eq, send_bind. cbn zeta.
  destruct (esearch w QUERY MAX_RESULTS) as [ids|status]; [|reflexivity].
  cbv [mret M_ret]. cbn beta iota. rewrite bind_eq, send_bind.
  destruct (efetch w (PyStr.join "," ids)) as [records|status]; [|reflexivity].
  cbv [mret M_ret]. cbn beta iota. apply for_each_append.
Qed.

Lemma search_pubmed_appends w :
  appends_only (λ r, Source r = "PubMed") (λ e, ∃ status, e = HTTPError status)
    (search_pubmed w).
Proof.
  intros s. rewrite search_pubmed_eq. cbn zeta.
  destruct (esearch w QUERY MAX_RESULTS) as [ids|status].
  - destruct (efetch w (PyStr.join "," ids)) as [records|status].
    + exists (pubmed_record <$> records). split; [done|]. split; [|done].
      apply Forall_fmap, Forall_forall. by intros.
    + exists []. cbn [fst snd]. split; [by rewrite app_nil_r|]. split; [done|by eexists].
  - exists []. cbn [fst snd]. split; [by rewrite app_nil_r|]. split; [done|by eexists].
Qed.

Lemma arxiv_loop_appends w budget fuel :
  ∀ start retrieved,
    appends_only (λ r, Source r = "arXiv")
      (λ e, e = ParseError ∨ e = AttributeError ∨ e = TypeError)
      (arxiv_loop w budget fuel start retrieved).
Proof.
  induction fuel as [|fuel IH]; intros start retrieved s; rewrite arxiv_loop_eq;
    destruct (retrieved <? budget);
    try (exists []; cbv [mret M_ret out_of_fuel]; cbn [fst snd];
         by rewrite app_nil_r).
  rewrite send_bind.
  destruct (body (arxiv_get w start arxiv_batch_size)) as [[|entry entries]|].
  { exists []. cbv [mret M_ret]. cbn [fst snd add_sent results].
    by rewrite app_nil_r. }
  2:{ exists []. cbv [raise]. cbn [fst snd add_sent results].
      rewrite app_nil_r. auto. }
  set (page := entry :: entries). clearbody page.
  rewrite bind_eq, for_each_collect.
  pose proof (collect_Forall arxiv_record (λ r, Source r = "arXiv") page) as Hsrc.
  pose proof (collect_raise arxiv_record page) as Hraise.
  destruct (collect arxiv_record page) as [recs1 o1]. cbn [fst snd] in *.
  assert (Hrecs1 : Forall (λ r, Source r = "arXiv") recs1).
  { apply Hsrc. intros x r (? & ? & ? & ? & ? & ? & _ & _ & _ & _ & _ & _ & ->)%arxiv_record_inr.
    done. }
  destruct o1 as [[]|e|]; cbn beta iota.
  - destruct (IH (start + arxiv_batch_size) (retrieved + Z.of_nat (length page))
                (add_results (add_sent s [ArxivGet (arxiv_url start arxiv_batch_size)])
                   recs1))
      as (recs2 & Hres & Hrecs2 & Hexn).
    exists (recs1 ++ recs2). rewrite Hres. cbn [add_results add_sent results].
    split; [by rewrite app_assoc|]. split; [by apply Forall_app|done].
  - exists recs1. cbn [fst snd add_results add_sent results].
    split; [done|]. split; [done|].
    destruct (Hraise e eq_refl) as (x & _ & [->| ->]%arxiv_record_inl); auto.
  - exists recs1. cbn [fst snd add_results add_sent results]. done.
Qed.

Lemma search_crossref_appends w :
  appends_only (λ r, Source r = "CrossRef")
    (λ e, e = JSONDecodeError ∨ e = IndexError) (search_crossref w).
Proof.
  intros s. rewrite search_crossref_eq. cbn zeta.
  destruct (decide _).
  - exists []. cbn [fst snd add_stdout add_sent results]. by rewrite app_nil_r.
  - destruct (body _) as [data|].
    + exists (fst (collect crossref_record (crossref_items data))).
      cbn [fst snd add_results add_sent results].
      split; [done|]. split.
      * apply collect_Forall.
        by intros x r (? & ? & ? & _ & _ & _ & ->)%crossref_record_inr.
      * destruct (snd (collect crossref_record (crossref_items data))) as [|e|] eqn:Ho;
          [done| |done].
        destruct (collect_raise _ _ _ Ho) as (x & _ & ->%crossref_record_inl).
        by right.
    + exists []. cbn [fst snd add_sent results]. rewrite app_nil_r. auto.
Qed.

Lemma europe_pmc_loop_appends w budget fuel :
  ∀ retrieved page,
    appends_only (λ r, Source r = "Europe PMC") (λ e, e = JSONDecodeError)
      (europe_pmc_loop w budget fuel retrieved page).
Proof.
  induction fuel as [|fuel IH]; intros retrieved page s; rewrite europe_pmc_loop_eq;
    destruct (retrieved <? budget);
    try (exists []; cbv [mret M_ret out_of_fuel]; cbn [fst snd];
         by rewrite app_nil_r).
  rewrite send_bind. cbn zeta.
  destruct (decide _).
  { exists []. rewrite print_eq. cbn [fst snd add_stdout add_sent results].
    by rewrite app_nil_r. }
  destruct (body _) as [data|];
    [|exists []; cbv [raise]; cbn [fst snd add_sent results]; by rewrite app_nil_r].
  destruct (epmc_hit_list data) as [|hit hit_list] eqn:Hhits;
    [exists []; cbv [mret M_ret]; cbn [fst snd add_sent results];
     by rewrite app_nil_r|].
  rewrite <- Hhits. rewrite bind_eq, for_each_append. cbn beta iota.
  destruct (IH (retrieved + Z.of_nat (length (epmc_hit_list data))) (page + 1)
              (add_results (add_sent s [EuropePmcGet QUERY "json" epmc_page_size page])
                 (epmc_record <$> epmc_hit_list data)))
    as (recs2 & Hres & Hrecs2 & Hexn).
  exists ((epmc_record <$> epmc_hit_list data) ++ recs2). rewrite Hres.
  cbn [add_results add_sent results].
  split; [by rewrite app_assoc|]. split; [|done].
  apply Forall_app. split; [|done]. apply Forall_fmap, Forall_forall. by intros.
Qed.


Lemma appends_then {P1 E1 P2 E2} (m k : M unit) :
  appends_only P1 E1 m → appends_only P2 E2 k →
  ∀ s, ∃ r1 r2,
    results (snd ((m;; k) s)) = results s ++ r1 ++ r2
    ∧ Forall P1 r1 ∧ Forall P2 r2
    ∧ (fst (m s) ≠ Ok tt → r2 = []).
Proof.
  intros Hm Hk s. destruct (Hm s) as (r1 & Hr1 & HP1 & _).
  rewrite bind_eq. destruct (m s) as [[[]|e|] s1]; cbn [fst snd] in *.
  - destruct (Hk s1) as (r2 & Hr2 & HP2 & _).
    exists r1, r2. rewrite Hr2, Hr1. by rewrite app_assoc.
  - exists r1, []. by rewrite app_nil_r.
  - exists r1, []. by rewrite app_nil_r.
Qed.

(** The searches leave what [results] held in place and add to it the
    PubMed records, then the arXiv records, then the CrossRef records,
    then the Europe PMC records; when PubMed does not end normally,
    nothing of the other three is added. *)
Theorem run_searches_groups (w : World) (s : State) :
  ∃ pubmed arxiv crossref europe_pmc,
    results (snd (run_searches w s))
    = results s ++ pubmed ++ arxiv ++ crossref ++ europe_pmc
    ∧ Forall (λ r, Source r = "PubMed") pubmed
    ∧ Forall (λ r, Source r = "arXiv") arxiv
    ∧ Forall (λ r, Source r = "CrossRef") crossref
    ∧ Forall (λ r, Source r = "Europe PMC") europe_pmc
    ∧ (fst (search_pubmed w s) ≠ Ok tt →
       arxiv = [] ∧ crossref = [] ∧ europe_pmc = []).
Proof.
  unfold run_searches.
  pose proof (search_pubmed_appends w) as Hp.
  pose proof (arxiv_loop_appends w MAX_RESULTS (Z.to_nat MAX_RESULTS) 0 0) as Ha.
  pose proof (search_crossref_appends w) as Hc.
  pose proof (europe_pmc_loop_appends w MAX_RESULTS (Z.to_nat MAX_RESULTS) 0 1) as He.
  fold (search_arxiv w) in Ha. fold (search_europe_pmc w) in He.
  destruct (Hp s) as (p & Hps & HP & _).
  rewrite bind_eq. destruct (search_pubmed w s) as [[[]|e|] s1]; cbn [fst snd] in *.
  - destruct (Ha s1) as (a & Has & HA & _).
    rewrite bind_eq. destruct (search_arxiv w s1) as [[[]|e|] s2]; cbn [fst snd] in *.
    + destruct (appends_then _ _ Hc He s2) as (c & e & Hce & HC & HE & _).
      exists p, a, c, e. rewrite Hce, Has, Hps.
      split; [by rewrite <- !app_assoc|]. done.
    + exists p, a, [], []. rewrite Has, Hps.
      split; [by rewrite !app_nil_r, <- app_assoc|]. done.
    + exists p, a, [], []. rewrite Has, Hps.
      split; [by rewrite !app_nil_r, <- app_assoc|]. done.
  - exists p, [], [], []. rewrite Hps. split; [by rewrite !app_nil_r|]. done.
  - exists p, [], [], []. rewrite Hps. split; [by rewrite !app_nil_r|]. done.
Qed.

(** ** When the record expressions raise *)

Lemma author_names_inr authors names :
  author_names authors = inr names ↔ authors = Some <$> names.
Proof.
  revert names. induction authors as [|[name|] authors IH]; intros names;
    cbn [author_names find_text ebind].
  - split; [by intros [= <-]|]. by destruct names.
  - destruct (author_names authors) as [e|ns] eqn:Hns; cbn [ebind].
    + split; [done|]. destruct names as [|n names]; [done|].
      intros [= -> Hrest]. by apply IH in Hrest.
    + split.
      * intros [= <-]. rewrite fmap_cons. f_equal. by apply IH.
      * destruct names as [|n names]; [done|].
        intros [= -> Hrest]. apply IH in Hrest. congruence.
  - split; [done|]. by destruct names.
Qed.

Lemma join_values_inr items parts :
  join_values items = inr parts ↔ items = Some <$> parts.
Proof.
  revert parts. induction items as [|[s|] items IH]; intros parts;
    cbn [join_values ebind].
  - split; [by intros [= <-]|]. by destruct parts.
  - destruct (join_values items) as [e|ps] eqn:Hps; cbn [ebind].
    + split; [done|]. destruct parts as [|p parts]; [done|].
      intros [= -> Hrest]. by apply IH in Hrest.
    + split.
      * intros [= <-]. rewrite fmap_cons. f_equal. by apply IH.
      * destruct parts as [|p parts]; [done|].
        intros [= -> Hrest]. apply IH in Hrest. congruence.
  - split; [done|]. by destruct parts.
Qed.

(** The arXiv record expression gives a record exactly for an entry that
    has a title with text, only authors whose name element has text, a
    publication date with text, a summary element and an id element; it
    raises [AttributeError] or [TypeError] for every other entry. *)
Theorem arxiv_record_defined (entry : ArxivEntry) :
  (∀ r, arxiv_record entry = inr r ↔
     ∃ title names published summary id,
       atom_title entry = Some (Some title)
       ∧ atom_author entry = (λ name, Some (Some name)) <$> names
       ∧ atom_published entry = Some (Some published)
       ∧ atom_summary entry = Some summary
       ∧ atom_id entry = Some id
       ∧ r = {| Source := "arXiv";
                Title := PyStr.strip title;
                Authors := PyStr.join "; " names;
                Year := PyStr.split_head "-" published;
                Abstract := summary;
                DOI := "";
                URL := id |})
  ∧ (∀ e, arxiv_record entry = inl e → e = AttributeError ∨ e = TypeError).
Proof.
  split; [|apply arxiv_record_inl].
  intros r. split.
  - intros (title & names & parts & published & summary & id
            & Ht & Hn & Hj & Hp & Hs & Hi & ->)%arxiv_record_inr.
    exists title, parts, published, summary, id.
    apply author_names_inr in Hn. apply join_values_inr in Hj.
    rewrite Hn, Hj, <- list_fmap_compose. done.
  - intros (title & names & published & summary & id
            & Ht & Hn & Hp & Hs & Hi & ->).
    unfold arxiv_record. rewrite Ht, Hp, Hs, Hi. cbn [find_text as_str ebind].
    rewrite (proj2 (author_names_inr (atom_author entry) (Some <$> names)))
      by (by rewrite Hn, <- list_fmap_compose).
    cbn [ebind].
    by rewrite (proj2 (join_values_inr (Some <$> names) names)).
Qed.

(** The CrossRef record expression raises nothing but [IndexError], and
    raises it exactly when the title list is there and empty, or the
    date parts are an empty list or start with an empty list; an item
    without title and without date gives a record with the empty title and
    the year text None. *)
Theorem crossref_record_defined (item : CrossrefItem) :
  (∀ e, crossref_record item = inl e → e = IndexError)
  ∧ (crossref_record item = inl IndexError ↔
       cr_title item = Some []
       ∨ crossref_date_parts item = []
       ∨ ∃ rest, crossref_date_parts item = [] :: rest)
  ∧ (cr_title item = None → cr_issued item = None →
     ∃ r, crossref_record item = inr r ∧ Title r = "" ∧ Year r = "None").
Proof.
  split; [apply crossref_record_inl|]. split.
  - unfold crossref_record.
    destruct (cr_title item) as [[|t ts]|]; cbn [get index0 ebind].
    + split; [by left|done].
    + destruct (crossref_date_parts item) as [|[|y first] rest]; cbn [index0 ebind].
      * split; [by right; left|done].
      * split; [right; right; by eexists|done].
      * split; [done|]. intros [|[|[? ?]]]; done.
    + destruct (crossref_date_parts item) as [|[|y first] rest]; cbn [index0 ebind].
      * split; [by right; left|done].
      * split; [right; right; by eexists|done].
      * split; [done|]. intros [|[|[? ?]]]; done.
  - intros Ht Hi. unfold crossref_record, crossref_date_parts.
    rewrite Ht, Hi. cbn [get index0 ebind]. eexists. split; [reflexivity|]. done.
Qed.

(** The year of a record is the text in front of the first separator of
    the provider's date: a space for PubMed, a hyphen for arXiv.  It holds
    no separator, the date starts with it, and a date made of a year
    without separator followed by the separator gives that year.  A
    PubMed record without date has the empty year. *)
Theorem year_is_leading_segment :
  (∀ rec,
     PyStr.contains " " (Year (pubmed_record rec)) = false
     ∧ (get (DP rec) "" = Year (pubmed_record rec)
        ∨ ∃ rest, get (DP rec) "" = Year (pubmed_record rec) +:+ String " " rest))
  ∧ (∀ rec year rest,
       DP rec = Some (year +:+ String " " rest) →
       PyStr.contains " " year = false →
       Year (pubmed_record rec) = year)
  ∧ (∀ rec, DP rec = None → Year (pubmed_record rec) = "")
  ∧ (∀ entry r,
       arxiv_record entry = inr r →
       ∃ published,
         atom_published entry = Some (Some published)
         ∧ PyStr.contains "-" (Year r) = false
         ∧ (published = Year r ∨ ∃ rest, published = Year r +:+ String "-" rest))
  ∧ (∀ entry r year rest,
       arxiv_record entry = inr r →
       atom_published entry = Some (Some (year +:+ String "-" rest)) →
       PyStr.contains "-" year = false →
       Year r = year).
Proof.
  split; [|split; [|split; [|split]]].
  - intros rec. apply split_head_spec.
  - intros rec year rest Hdp Hyear. cbn [pubmed_record Year]. rewrite Hdp.
    cbn [get]. by apply split_head_prefix.
  - intros rec Hdp. cbn [pubmed_record Year]. by rewrite Hdp.
  - intros entry r (title & names & parts & published & summary & id
                    & _ & _ & _ & Hp & _ & _ & ->)%arxiv_record_inr.
    exists published. split; [done|]. cbn [Year]. apply split_head_spec.
  - intros entry r year rest
      (title & names & parts & published & summary & id
       & _ & _ & _ & Hp & _ & _ & ->)%arxiv_record_inr Hpub Hyear.
    rewrite Hp in Hpub. injection Hpub as ->. cbn [Year].
    by apply split_head_prefix.
Qed.

(** The PubMed adapter: a failed search raises with nothing appended and
    no fetch sent; a failed fetch raises with nothing appended; otherwise
    the search and one fetch of all the ids, joined by commas, are sent
    and one record per MEDLINE record is appended, in order.  Nothing is
    printed in any case. *)
Theorem search_pubmed_steps (w : World) (s : State) :
  (∀ status,
     esearch w QUERY MAX_RESULTS = EntrezFail status →
     search_pubmed w s =
       (Raise (HTTPError status),
        add_sent s [ESearch "pubmed" QUERY MAX_RESULTS]))
  ∧ (∀ ids status,
       esearch w QUERY MAX_RESULTS = EntrezOk ids →
       efetch w (PyStr.join "," ids) = EntrezFail status →
       search_pubmed w s =
         (Raise (HTTPError status),
          add_sent s [ESearch "pubmed" QUERY MAX_RESULTS;
                      EFetch "pubmed" (PyStr.join "," ids) "medline" "text"]))
  ∧ (∀ ids records,
       esearch w QUERY MAX_RESULTS = EntrezOk ids →
       efetch w (PyStr.join "," ids) = EntrezOk records →
       search_pubmed w s =
         (Ok tt,
          add_sent (add_results s (pubmed_record <$> records))
            [ESearch "pubmed" QUERY MAX_RESULTS;
             EFetch "pubmed" (PyStr.join "," ids) "medline" "text"]))
  ∧ stdout (snd (search_pubmed w s)) = stdout s.
Proof.
  rewrite search_pubmed_eq. cbn zeta.
  split; [|split; [|split]].
  - by intros status ->.
  - intros ids status -> ->. by rewrite add_sent_app.
  - intros ids records -> ->. unfold add_sent, add_results.
    cbn [results stdout sent]. by rewrite <- app_assoc.
  - destruct (esearch w QUERY MAX_RESULTS) as [ids|]; [|done].
    by destruct (efetch w (PyStr.join "," ids)).
Qed.

(** ** Quoting of a field *)

Lemma needs_quotes_no_quote s :
  Csv.needs_quotes s = false → PyStr.contains Csv.quotechar s = false.
Proof.
  induction s as [|c s IH]; [done|].
  cbn [Csv.needs_quotes PyStr.contains]. intros [Hc Hs]%orb_false_iff.
  rewrite (IH Hs), orb_false_r. unfold Csv.special in Hc.
  apply orb_false_iff in Hc as [Hc _]. apply orb_false_iff in Hc as [_ Hc].
  by rewrite Ascii.eqb_sym.
Qed.

Lemma string_app_nil t : EmptyString +:+ t = t.
Proof. reflexivity. Qed.

Lemma string_app_cons c s t : String c s +:+ t = String c (s +:+ t).
Proof. reflexivity. Qed.

(** A field in quotes determines its text: the doubling of quote
    characters followed by the closing quote is one-to-one. *)
Lemma escape_closed_inj s1 :
  ∀ s2,
    Csv.escape s1 +:+ String Csv.quotechar EmptyString
    = Csv.escape s2 +:+ String Csv.quotechar EmptyString →
    s1 = s2.
Proof.
  induction s1 as [|c s1 IH]; intros [|d s2]; cbn [Csv.escape].
  - done.
  - destruct (Ascii.eqb_spec d Csv.quotechar) as [->|Hd];
      intros Heq; rewrite ?string_app_cons, ?string_app_nil in Heq; congruence.
  - destruct (Ascii.eqb_spec c Csv.quotechar) as [->|Hc];
      intros Heq; rewrite ?string_app_cons, ?string_app_nil in Heq; congruence.
  - destruct (Ascii.eqb_spec c Csv.quotechar) as [->|Hc],
             (Ascii.eqb_spec d Csv.quotechar) as [->|Hd];
      intros Heq; rewrite ?string_app_cons in Heq.
    + injection Heq as Heq. f_equal. by apply IH.
    + congruence.
    + congruence.
    + injection Heq as -> Heq. f_equal. by apply IH.
Qed.

(** What the writer makes of a value: a value without comma, quote, CR or
    LF is written as it is; any other is put in quotes with its quotes
    doubled; and two values are written alike only when they are the same
    value, so that no text is lost in a field. *)
Theorem csv_field_lossless :
  (∀ s1 s2, Csv.field s1 = Csv.field s2 ↔ s1 = s2)
  ∧ (∀ s, Csv.needs_quotes s = false ↔ Csv.field s = s)
  ∧ (∀ s, Csv.needs_quotes s = true →
          Csv.field s
          = String Csv.quotechar (Csv.escape s +:+ String Csv.quotechar EmptyString)).
Proof.
  assert (Hquoted : ∀ s t,
             Csv.needs_quotes s = false →
             s ≠ String Csv.quotechar t).
  { intros s t Hs ->. apply needs_quotes_no_quote in Hs.
    cbn [PyStr.contains] in Hs. by rewrite Ascii.eqb_refl in Hs. }
  split; [|split].
  - intros s1 s2. split; [|by intros ->].
    unfold Csv.field.
    destruct (Csv.needs_quotes s1) eqn:H1, (Csv.needs_quotes s2) eqn:H2.
    + intros [= Heq]. by apply escape_closed_inj.
    + intros Heq. symmetry in Heq. by apply Hquoted in Heq.
    + intros Heq. by apply Hquoted in Heq.
    + done.
  - intros s. unfold Csv.field. destruct (Csv.needs_quotes s) eqn:Hs.
    + split; [done|]. intros Heq. symmetry in Heq.
      assert (Hlen : String.length s
                     = String.length (String Csv.quotechar
                         (Csv.escape s +:+ String Csv.quotechar EmptyString)))
        by congruence.
      clear -Hlen. exfalso. cbn [String.length] in Hlen.
      assert (Hle : (String.length s
                     ≤ String.length (Csv.escape s +:+ String Csv.quotechar EmptyString))%nat).
      { clear. induction s as [|c s IH]; [simpl; lia|].
        cbn [Csv.escape]. destruct (Ascii.eqb c Csv.quotechar); simpl in *; lia. }
      lia.
    + done.
  - intros s Hs. unfold Csv.field. by rewrite Hs.
Qed.

(** ** The script as a whole *)

Lemma search_arxiv_no_fuel w s : fst (search_arxiv w s) ≠ OutOfFuel.
Proof.
  unfold search_arxiv.
  destruct (arxiv_loop_inv w MAX_RESULTS (Z.to_nat MAX_RESULTS) 0 0 s)
    as (n & recs & o & Heq & _ & Ho & _); [lia|]. by rewrite Heq.
Qed.

Lemma search_europe_pmc_no_fuel w s : fst (search_europe_pmc w s) ≠ OutOfFuel.
Proof.
  unfold search_europe_pmc.
  destruct (europe_pmc_loop_inv w MAX_RESULTS (Z.to_nat MAX_RESULTS) 0 1 s)
    as (n & out & o & Heq & _ & Ho & _); [lia|]. by rewrite Heq.
Qed.

Lemma run_searches_no_fuel w s : fst (run_searches w s) ≠ OutOfFuel.
Proof.
  unfold run_searches. rewrite bind_eq.
  destruct (search_pubmed w s) as [[[]|e|] s1] eqn:Hp; [|done|].
  - rewrite bind_eq.
    pose proof (search_arxiv_no_fuel w s1) as Ha.
    destruct (search_arxiv w s1) as [[[]|e|] s2]; [|done|done].
    rewrite bind_eq.
    assert (Hc : fst (search_crossref w s2) ≠ OutOfFuel).
    { rewrite search_crossref_eq. cbn zeta. destruct (decide _); [done|].
      destruct (body _); [|done]. apply collect_no_fuel. }
    destruct (search_crossref w s2) as [[[]|e|] s3]; [|done|done].
    apply search_europe_pmc_no_fuel.
  - exfalso. rewrite search_pubmed_eq in Hp. cbn zeta in Hp.
    destruct (esearch w QUERY MAX_RESULTS) as [ids|]; [|done].
    by destruct (efetch w (PyStr.join "," ids)).
Qed.

(** A whole run.  The ignore file is updated whatever happens later.  The
    searches always come to an end.  When they end normally, the
    deduplicated records are exported, the number in the last printed line
    is their number, which is the number of data rows of the file and the
    sum of the counts handed to the second chart, while the counts handed
    to the first chart add up to the number of records gathered.  When an
    adapter raises, the run ends with that exception: no file is
    exported, no chart is drawn, and nothing is printed after the
    adapters' own lines. *)
Theorem script_outputs (w : World) (gitignore : option string) :
  run_gitignore (script w gitignore) = update_gitignore gitignore
  ∧ run_outcome (script w gitignore) = fst (run_searches w initial)
  ∧ run_outcome (script w gitignore) ≠ OutOfFuel
  ∧ (run_outcome (script w gitignore) = Ok tt →
     ∃ gathered unique before after,
       gathered = results (snd (run_searches w initial))
       ∧ unique = deduplicate gathered
       ∧ run_csv (script w gitignore) = Some (csv_file unique)
       ∧ length (csv_rows unique) = S (length unique)
       ∧ last (run_stdout (script w gitignore))
         = Some (String Csv.LF "Saved " +:+ PyStr.of_int (Z.of_nat (length unique))
                 +:+ " unique records to oos/combined_results.csv")
       ∧ run_charts (script w gitignore) = Some (before, after)
       ∧ foldr Z.add 0 before.*2 = Z.of_nat (length gathered)
       ∧ foldr Z.add 0 after.*2 = Z.of_nat (length unique))
  ∧ (run_outcome (script w gitignore) ≠ Ok tt →
     run_csv (script w gitignore) = None
     ∧ run_charts (script w gitignore) = None
     ∧ run_stdout (script w gitignore) = stdout (snd (run_searches w initial))).
Proof.
  pose proof (run_searches_no_fuel w initial) as Hfuel.
  unfold script. cbn zeta.
  destruct (run_searches w initial) as [[[]|e|] s]; cbn [fst snd] in *;
    cbn [run_gitignore run_outcome run_csv run_charts run_stdout].
  - split; [done|]. split; [done|]. split; [done|]. split; [|done].
    intros _. eexists _, _, _, _.
    split; [reflexivity|]. split; [reflexivity|]. split; [reflexivity|].
    split; [unfold csv_rows; simpl; by rewrite length_map|].
    split; [by rewrite !app_assoc, last_snoc|].
    split; [reflexivity|].
    split; apply source_counts_spec.
  - split; [done|]. split; [done|]. split; [done|]. split; [done|]. done.
  - done.
Qed.

(** ** Exceptions inside a page, and titles with white space around *)

Lemma collect_stops {A} (f : A → exn + Rec) before bad after e :
  (∀ x, x ∈ before → ∃ r, f x = inr r) →
  f bad = inl e →
  ∃ recs,
    collect f (before ++ bad :: after) = (recs, Raise e)
    ∧ Forall2 (λ x r, f x = inr r) before recs.
Proof.
  intros Hgood Hbad. induction before as [|x before IH].
  - exists []. cbn [app collect]. rewrite Hbad. by split; [|constructor].
  - destruct (Hgood x) as (r & Hr); [left|].
    destruct IH as (recs & Heq & Hall); [intros y Hy; apply Hgood; by right|].
    exists (r :: recs). cbn [app collect]. rewrite Hr, Heq.
    split; [done|]. by constructor.
Qed.

(** An arXiv entry whose record expression raises ends the adapter with
    that exception; the records of the entries before it on the page stay
    in [results], and no other request is sent. *)
Theorem search_arxiv_keeps_partial_page (w : World) (s : State)
    (before after : list ArxivEntry) (bad : ArxivEntry) (e : exn) :
  body (arxiv_get w 0 arxiv_batch_size) = Some (before ++ bad :: after) →
  (∀ x, x ∈ before → ∃ r, arxiv_record x = inr r) →
  arxiv_record bad = inl e →
  ∃ recs,
    search_arxiv w s =
      (Raise e,
       add_sent (add_results s recs) [ArxivGet (arxiv_url 0 arxiv_batch_size)])
    ∧ Forall2 (λ x r, arxiv_record x = inr r) before recs.
Proof.
  intros Hbody Hgood Hbad. unfold search_arxiv.
  destruct max_results_fuel as (fuel & -> & _).
  assert (Hlt : 0 < MAX_RESULTS) by (unfold MAX_RESULTS; lia).
  rewrite (arxiv_loop_step w MAX_RESULTS fuel 0 0 s _ Hlt Hbody)
    by (by destruct before).
  rewrite bind_eq, for_each_collect.
  destruct (collect_stops arxiv_record before bad after e Hgood Hbad)
    as (recs & -> & Hall).
  exists recs. split; [reflexivity|done].
Qed.

Lemma search_arxiv_keeps_partial_page_sample :
  ∃ recs,
    search_arxiv arxiv_bad_second_entry initial =
      (Raise AttributeError,
       add_sent (add_results initial recs) [ArxivGet (arxiv_url 0 arxiv_batch_size)])
    ∧ Forall2 (λ x r, arxiv_record x = inr r) [sample_entry] recs.
Proof.
  apply (search_arxiv_keeps_partial_page arxiv_bad_second_entry initial
           [sample_entry] [] entry_without_title AttributeError).
  - reflexivity.
  - intros x Hx. apply list_elem_of_singleton in Hx. rewrite Hx.
    exists sample_record. reflexivity.
  - reflexivity.
Defined.

(** A PubMed record and a Europe PMC hit whose titles are one text with
    white space around it, and whose years are the same text, have the
    same key: of the two, only the PubMed record survives the filter. *)
Theorem padded_titles_collide (rec : MedlineRec) (hit : EpmcHit)
    (title before1 after1 before2 after2 : string) :
  TI rec = Some (before1 +:+ title +:+ after1) →
  hit_title hit = Some (before2 +:+ title +:+ after2) →
  blank before1 = true → blank after1 = true →
  blank before2 = true → blank after2 = true →
  Year (pubmed_record rec) = Year (epmc_record hit) →
  dedup_key (pubmed_record rec) = dedup_key (epmc_record hit)
  ∧ deduplicate [pubmed_record rec; epmc_record hit] = [pubmed_record rec].
Proof.
  intros Hti Hhit Hb1 Ha1 Hb2 Ha2 Hyear.
  assert (Hstrip : ∀ b a, blank b = true → blank a = true →
                          PyStr.strip (b +:+ title +:+ a) = PyStr.strip title).
  { intros b a Hb Ha.
    transitivity (PyStr.strip (title +:+ a)); [|by apply strip_app_blank].
    unfold PyStr.strip. by rewrite lstrip_blank. }
  assert (Hkey : dedup_key (pubmed_record rec) = dedup_key (epmc_record hit)).
  { unfold dedup_key. rewrite Hyear. f_equal.
    cbn [pubmed_record epmc_record Title]. rewrite Hti, Hhit. cbn [get].
    by rewrite !Hstrip. }
  split; [exact Hkey|]. rewrite deduplicate_pair. by rewrite decide_True.
Qed.

Lemma padded_titles_collide_sample :
  deduplicate [pubmed_record padded_medline; epmc_record padded_hit]
  = [pubmed_record padded_medline].
Proof.
  apply (proj2 (padded_titles_collide padded_medline padded_hit
                  "Virtual patients" "  " (String Csv.LF EmptyString) "" " "
                  eq_refl eq_refl eq_refl eq_refl eq_refl eq_refl eq_refl)).
Defined.
